(** * EODHD MCP server: resilience, caching and authorization core

    A shallow embedding of [app/api_client.py], [app/cache.py],
    [app/redis_cache.py], [app/batch.py], [app/oauth.py] and [app/auth.py],
    with the properties of the design document stated over it.

    Conventions of the embedding.
    - A coroutine is a function of what the outside world answers; the calls
      it makes and the sleeps it takes are returned as a list of events.
    - Readings of [time.time()] and durations are rationals ([Q]).  The two
      places of the request engine where the range of a Python float
      matters, the conversion of [2 ** attempt] in the back-off computation
      and of the [Retry-After] seconds in [asyncio.sleep], are modelled with
      the [OverflowError] they raise.
    - Values that come out of a JSON document keep the type the document
      gave them: the code does not check it.
    - Python exceptions are values of [exn]; a function that may let one
      escape returns a [result].
    - Plain dicts are [gmap]s; the [OrderedDict] of the TTL cache is a list,
      oldest entry first. *)

From Stdlib Require Import QArith Qminmax Lqa Ascii String.
From stdpp Require Import gmap strings list fin_maps pretty.

Set Warnings "-register-all".

Local Open Scope Z_scope.

(** ** Python values shared by the modules *)

Record exn := Exn { exn_class : string; exn_msg : string }.

Inductive result (A : Type) :=
| Return (a : A)
| Raise (e : exn).
Arguments Return {A} a.
Arguments Raise {A} e.

(** The floats that are not numbers of [Q]: [json.loads] reads [NaN],
    [Infinity] and [-Infinity], and a literal beyond the range of a double,
    as these. *)
Inductive nonfinite := NaN | PosInf | NegInf.

(** JSON-shaped Python values: what [response.json()] and [make_request]
    hand to their callers. *)
Inductive json :=
| JNull
| JBool (b : bool)
| JInt (n : Z)
| JFloat (q : Q)
| JNonFinite (f : nonfinite)
| JStr (s : string)
| JList (l : list json)
| JDict (d : list (string * json)).

(** [bool(v)]. *)
Definition truthy (v : json) : bool :=
  match v with
  | JNull => false
  | JBool b => b
  | JInt n => negb (n =? 0)
  | JFloat q => negb (Qeq_bool q 0)
  | JNonFinite _ => true
  | JStr s => negb (String.eqb s "")
  | JList l => match l with [] => false | _ => true end
  | JDict d => match d with [] => false | _ => true end
  end.

(** [d.get(k)] on a dict held as an association list. *)
Fixpoint dict_get (k : string) (d : list (string * json)) : option json :=
  match d with
  | [] => None
  | (k', v) :: d' => if String.eqb k k' then Some v else dict_get k d'
  end.

(** [needle in hay] on strings. *)
Fixpoint contains (needle hay : string) : bool :=
  String.prefix needle hay ||
  match hay with
  | EmptyString => false
  | String _ hay' => contains needle hay'
  end.

Definition Qltb (x y : Q) : bool := negb (Qle_bool y x).

(** ** app/api_client.py *)
Module ApiClient.

Definition MAX_RETRIES : Z := 3.
Definition RETRY_DELAY_BASE : Q := 1.
Definition RETRY_DELAY_MAX : Q := 10.

(** [float * int] converts the int first.  The conversion is used here on
    powers of two only, which a double holds exactly below [2 ** 1024] and
    for which CPython raises [OverflowError] from [2 ** 1024] on. *)
Definition float_of_int (n : Z) : result Q :=
  if Z.abs n <? 2 ^ 1024 then Return (inject_Z n)
  else Raise (Exn "OverflowError" "int too large to convert to float").

(** [min(a, b)]: the first argument unless the second is smaller. *)
Definition py_min (a b : Q) : Q := if Qltb b a then b else a.

Definition _calculate_retry_delay (attempt : nat) : result Q :=
  match float_of_int (2 ^ Z.of_nat attempt) with
  | Return f => let delay := (RETRY_DELAY_BASE * f)%Q in
                Return (py_min delay RETRY_DELAY_MAX)
  | Raise e => Raise e
  end.

(** The [Retry-After] header as [int(...)] sees it. *)
Inductive retry_after_header :=
| RetryAfterAbsent
| RetryAfterInt (n : Z)
| RetryAfterInvalid (msg : string).   (* int() raises ValueError(msg) *)

(** [int(response.headers.get("Retry-After", 60))]. *)
Definition retry_after_seconds (h : retry_after_header) : result Z :=
  match h with
  | RetryAfterAbsent => Return 60
  | RetryAfterInt n => Return n
  | RetryAfterInvalid msg => Raise (Exn "ValueError" msg)
  end.

(** [await asyncio.sleep(delay)] with an [int] delay.  A delay that is not
    positive returns at once.  A positive one is added to the clock of the
    event loop, a float: the int is converted, rounding to the nearest
    double, and from [2 ** 1024 - 2 ** 970] on that raises [OverflowError]. *)
Definition SLEEP_OVERFLOW : Z := 2 ^ 1024 - 2 ^ 970.

Definition asyncio_sleep (delay : Z) : result Q :=
  if delay <? SLEEP_OVERFLOW then Return (inject_Z delay)
  else Raise (Exn "OverflowError" "int too large to convert to float").

Record response := Response {
  status_code : Z;
  retry_after : retry_after_header;
  content_type : string;          (* headers.get("content-type", "") *)
  json_body : result json;        (* response.json() *)
  text : string;                  (* response.text *)
  status_error : string           (* str() of the HTTPStatusError of raise_for_status *)
}.

(** What one pass through the [try] body meets. *)
Inductive http_outcome :=
| Responded (r : response)
| TimeoutException (msg : string)
| RequestError (msg : string)       (* httpx.RequestError other than a timeout *)
| OtherException (msg : string).    (* any other Exception *)

Inductive event :=
| EvAttempt (attempt : nat) (url : string) (timeout : Q)
| EvSleep (seconds : Q)
| EvPost (url : string) (timeout : Q).

Definition run (A : Type) : Type := (list event * result A)%type.

Definition emit {A} (evs : list event) (k : run A) : run A :=
  (evs ++ k.1, k.2).

Definition error_dict (msg : string) : json := JDict [("error", JStr msg)].

(** [response.raise_for_status()] raises unless the status is 2xx. *)
Definition is_success (r : response) : bool :=
  (200 <=? status_code r) && (status_code r <? 300).

(** Lines 92-104: the payload of a 2xx response. *)
Definition parse_payload (r : response) : json :=
  if contains "application/json" (content_type r) then
    match json_body r with
    | Return v => v
    | Raise e => error_dict (exn_msg e)     (* except Exception, line 125 *)
    end
  else if contains "text/csv" (content_type r) || contains "text/plain" (content_type r) then
    JDict [("csv", JStr (text r))]
  else
    match json_body r with
    | Return v => v
    | Raise _ => JDict [("text", JStr (text r))]
    end.

(** The requests and the sleeps of a run. *)
Definition is_attempt (e : event) : bool :=
  match e with EvAttempt _ _ _ => true | _ => false end.

Definition count_attempts (evs : list event) : nat :=
  length (List.filter is_attempt evs).

Definition sleeps (evs : list event) : list Q :=
  omap (fun e => match e with EvSleep d => Some d | _ => None end) evs.

Section Engine.

(** [EODHD_API_KEY] comes from [app/config.py]. *)
Variable EODHD_API_KEY : option string.

Definition py_str_key : string :=
  match EODHD_API_KEY with Some k => k | None => "None" end.

Definition add_token (url : string) : string :=
  if contains "api_token=" url then url
  else url +:+ (if contains "?" url then "&" else "?") +:+ "api_token=" +:+ py_str_key.

Section Loop.

Variable env : nat -> http_outcome.
Variable url : string.
Variable timeout : Q.
Variable retries : Z.

(** Lines 130-134, followed by the rest of the loop. *)
Definition backoff (attempt : nat) (rest : run json) : run json :=
  if Z.of_nat attempt <? retries then
    match _calculate_retry_delay attempt with
    | Return delay => emit [EvSleep delay] rest
    | Raise e => ([], Raise e)
    end
  else rest.

(** The [for attempt in range(retries + 1)] loop with [todo] iterations
    left, and lines 136-139 after it. *)
Fixpoint attempts (todo : nat) (attempt : nat) (last_error : option string) : run json :=
  match todo with
  | O =>
      ([], Return (error_dict (default "Unknown error after retries" last_error)))
  | S todo' =>
      emit [EvAttempt attempt url timeout]
        match env attempt with
        | Responded r =>
            if status_code r =? 429 then
              match retry_after_seconds (retry_after r) with
              | Return n =>
                  match asyncio_sleep n with
                  | Return d => emit [EvSleep d] (attempts todo' (S attempt) last_error)
                  | Raise e => ([], Return (error_dict (exn_msg e)))   (* except Exception *)
                  end
              | Raise e => ([], Return (error_dict (exn_msg e)))   (* except Exception *)
              end
            else if is_success r then ([], Return (parse_payload r))
            else
              let status := status_code r in
              if (400 <=? status) && (status <? 500) && negb (status =? 429) then
                ([], Return (error_dict ("HTTP " +:+ pretty status +:+ ": " +:+ status_error r)))
              else
                backoff attempt (attempts todo' (S attempt) (Some (status_error r)))
        | TimeoutException msg =>
            backoff attempt (attempts todo' (S attempt) (Some msg))
        | RequestError msg =>
            backoff attempt (attempts todo' (S attempt) (Some msg))
        | OtherException msg => ([], Return (error_dict msg))
        end
  end.

End Loop.

Definition make_request (env : nat -> http_outcome) (url : string) (timeout : Q) (retries : Z) : run json :=
  attempts env (add_token url) timeout retries (Z.to_nat (retries + 1)) 0 None.

(** The single attempt of the POST variant. *)
Definition make_post_request (outcome : http_outcome) (url : string) (timeout : Q) : run json :=
  emit [EvPost (add_token url) timeout]
    ([], Return
      match outcome with
      | Responded r =>
          if is_success r then
            match json_body r with
            | Return v => v
            | Raise e => error_dict (exn_msg e)
            end
          else error_dict (status_error r)
      | TimeoutException msg | RequestError msg | OtherException msg => error_dict msg
      end).

(** The reading of the design document for a 429: the budget is as it was,
    so the run goes on as a fresh run on the remaining answers would. *)
Definition rate_limit_outside_budget (env : nat -> http_outcome) (url : string)
    (timeout : Q) (retries : Z) : Prop :=
  forall r n,
    env 0%nat = Responded r -> status_code r = 429 ->
    retry_after_seconds (retry_after r) = Return n ->
    let run := make_request env url timeout retries in
    let fresh := make_request (fun i => env (S i)) url timeout retries in
    length (List.filter is_attempt run.1) = S (length (List.filter is_attempt fresh.1))
    /\ run.2 = fresh.2.

End Engine.

(** What a run hands back when it returns: a decoded payload of a 2xx
    answer, or a dict with an ["error"] entry. *)
Definition is_error_dict (v : json) : Prop := exists msg, v = error_dict msg.

Definition well_formed_return (v : json) : Prop :=
  is_error_dict v \/ exists r, is_success r = true /\ v = parse_payload r.

(** The failures that lines 106-123 leave to the retry: a timeout, a
    transport error, a 5xx answer. *)
Definition transient (o : http_outcome) (msg : string) : Prop :=
  o = TimeoutException msg \/ o = RequestError msg \/
  exists r, o = Responded r /\ msg = status_error r /\
            500 <= status_code r < 600.

(** Helpers to write down what the upstream answers. *)
Definition script (l : list http_outcome) (dflt : http_outcome) : nat -> http_outcome :=
  fun i => nth i l dflt.

Definition status_only (code : Z) (hdr : retry_after_header) : http_outcome :=
  Responded (Response code hdr "" (Raise (Exn "JSONDecodeError" "Expecting value")) "" ("status " +:+ pretty code)).

Definition ok_json (v : json) : http_outcome :=
  Responded (Response 200 RetryAfterAbsent "application/json" (Return v) "" "").

Definition limited_once : nat -> http_outcome :=
  script [status_only 429 (RetryAfterInt 7)] (ok_json (JInt 1)).

Definition always_timeout : nat -> http_outcome :=
  fun _ => TimeoutException "timed out".

Definition always_unavailable : nat -> http_outcome :=
  fun _ => status_only 503 RetryAfterAbsent.

End ApiClient.

(** ** app/cache.py *)
Module Cache.

Section TTL.

Context {V : Type}.

(** One item of the [OrderedDict]: [key -> (value, expiry)]. *)
Definition entry : Type := (string * (V * Q))%type.

Record TTLCache := mkTTLCache {
  _cache : list entry;        (* oldest first, most recently used last *)
  _maxsize : Z;
  _default_ttl : Z;
  _hits : Z;
  _misses : Z
}.

Definition __init__ (maxsize default_ttl : Z) : TTLCache :=
  mkTTLCache [] maxsize default_ttl 0 0.

Definition with_cache (c : TTLCache) (l : list entry) : TTLCache :=
  mkTTLCache l (_maxsize c) (_default_ttl c) (_hits c) (_misses c).

(** [self._cache[key]] when [key in self._cache]. *)
Fixpoint find (key : string) (l : list entry) : option (V * Q) :=
  match l with
  | [] => None
  | (k, x) :: l' => if String.eqb key k then Some x else find key l'
  end.

(** [del self._cache[key]]. *)
Fixpoint remove (key : string) (l : list entry) : list entry :=
  match l with
  | [] => []
  | (k, x) :: l' => if String.eqb key k then l' else (k, x) :: remove key l'
  end.

(** [self._cache.move_to_end(key)]. *)
Definition move_to_end (key : string) (l : list entry) : list entry :=
  match find key l with
  | Some x => remove key l ++ [(key, x)]
  | None => l
  end.

Definition get (c : TTLCache) (key : string) (now : Q) : TTLCache * option V :=
  match find key (_cache c) with
  | None =>
      (mkTTLCache (_cache c) (_maxsize c) (_default_ttl c) (_hits c) (_misses c + 1), None)
  | Some (value, expiry) =>
      if Qltb expiry now then
        (mkTTLCache (remove key (_cache c)) (_maxsize c) (_default_ttl c)
                    (_hits c) (_misses c + 1), None)
      else
        (mkTTLCache (move_to_end key (_cache c)) (_maxsize c) (_default_ttl c)
                    (_hits c + 1) (_misses c), Some value)
  end.

(** [ttl or self._default_ttl]. *)
Definition ttl_or_default (ttl : option Z) (default_ttl : Z) : Z :=
  match ttl with
  | Some t => if t =? 0 then default_ttl else t
  | None => default_ttl
  end.

(** [while len(self._cache) > self._maxsize: self._cache.popitem(last=False)];
    [popitem] on an empty dict raises [KeyError]. *)
Fixpoint evict (maxsize : Z) (l : list entry) : list entry * result unit :=
  if maxsize <? Z.of_nat (length l) then
    match l with
    | [] => ([], Raise (Exn "KeyError" "dictionary is empty"))
    | _ :: l' => evict maxsize l'
    end
  else (l, Return ()).

Definition set (c : TTLCache) (key : string) (value : V) (ttl : option Z) (now : Q)
  : TTLCache * result unit :=
  let ttl := ttl_or_default ttl (_default_ttl c) in
  let expiry := (now + inject_Z ttl)%Q in
  let l := remove key (_cache c) ++ [(key, (value, expiry))] in
  let '(l', r) := evict (_maxsize c) l in
  (with_cache c l', r).

Definition delete (c : TTLCache) (key : string) : TTLCache * bool :=
  match find key (_cache c) with
  | Some _ => (with_cache c (remove key (_cache c)), true)
  | None => (c, false)
  end.

Definition clear (c : TTLCache) : TTLCache :=
  mkTTLCache [] (_maxsize c) (_default_ttl c) 0 0.

Definition is_expired (now : Q) (e : entry) : bool := Qltb e.2.2 now.

Definition cleanup (c : TTLCache) (now : Q) : TTLCache * Z :=
  let expired := List.filter (is_expired now) (_cache c) in
  (with_cache c (fold_left (fun l e => remove e.1 l) expired (_cache c)),
   Z.of_nat (length expired)).

(** A client's calls, each with the clock reading it meets. *)
Inductive op :=
| Get (key : string)
| Set_ (key : string) (value : V) (ttl : option Z)
| Delete (key : string)
| Clear
| Cleanup.

Definition step (c : TTLCache) (o : op * Q) : TTLCache :=
  match o.1 with
  | Get key => (get c key o.2).1
  | Set_ key value ttl => (set c key value ttl o.2).1
  | Delete key => (delete c key).1
  | Clear => clear c
  | Cleanup => (cleanup c o.2).1
  end.

Definition steps (c : TTLCache) (ops : list (op * Q)) : TTLCache :=
  fold_left step ops c.

Definition keys (l : list entry) : list string := map fst l.

(** The invariant of the [OrderedDict]: keys are unique and the capacity is
    respected. *)
Definition cache_ok (c : TTLCache) : Prop :=
  NoDup (keys (_cache c)) /\ Z.of_nat (length (_cache c)) <= _maxsize c.

End TTL.

Arguments TTLCache : clear implicits.
Arguments entry : clear implicits.
Arguments op : clear implicits.

(** The three sets of the design document on a cache for two entries. *)
Definition abc_ops : list (op string * Q) :=
  [(Set_ "a" "1" None, 0%Q); (Set_ "b" "2" None, 1%Q); (Set_ "c" "3" None, 2%Q)].

Definition abc_cache : TTLCache string := steps (__init__ 2 60) abc_ops.

End Cache.

(** ** app/redis_cache.py *)
Module RedisCache.

(** What a call on the Redis client does: it answers or it raises. *)
Inductive remote (A : Type) :=
| Replies (a : A)
| Fails (msg : string).
Arguments Replies {A} a.
Arguments Fails {A} msg.

Section Redis.

Context {V : Type}.

(** [hashlib.sha256(...).hexdigest()], [json.dumps(value, default=str)]
    ([None] for the [TypeError]/[ValueError] the code catches) and
    [json.loads] ([None] when it raises). *)
Variable sha256_hexdigest : string -> string.
Variable json_dumps : V -> option string.
Variable json_loads : string -> option V.

Record RedisCache := mkRedisCache {
  prefix : string;
  default_ttl : Z;
  _client : bool;                           (* a client object is set *)
  _connected : bool;
  _fallback_cache : gmap string (V * Q)
}.

Definition __init__ (prefix : string) (default_ttl : Z) : RedisCache :=
  mkRedisCache prefix default_ttl false false ∅.

Definition with_fallback (c : RedisCache) (m : gmap string (V * Q)) : RedisCache :=
  mkRedisCache (prefix c) (default_ttl c) (_client c) (_connected c) m.

Definition _make_key (c : RedisCache) (key : string) : string := prefix c +:+ key.

Definition _hash_key (key : string) : string :=
  if (200 <? String.length key)%nat then sha256_hexdigest key else key.

Definition full_key (c : RedisCache) (key : string) : string :=
  _make_key c (_hash_key key).

Definition _fallback_get (c : RedisCache) (key : string) (now : Q) : RedisCache * option V :=
  match _fallback_cache c !! key with
  | Some (value, expires) =>
      if Qltb now expires then (c, Some value)
      else (with_fallback c (delete key (_fallback_cache c)), None)
  | None => (c, None)
  end.

Definition _fallback_set (c : RedisCache) (key : string) (value : V) (ttl : Z) (now : Q)
  : RedisCache * bool :=
  (with_fallback c (<[key := (value, (now + inject_Z ttl)%Q)]> (_fallback_cache c)), true).

Definition use_remote (c : RedisCache) : bool := _connected c && _client c.

Definition get (c : RedisCache) (key : string) (now : Q) (reply : remote (option string))
  : RedisCache * option V :=
  let full_key := full_key c key in
  if use_remote c then
    match reply with
    | Replies (Some value) =>
        if String.eqb value "" then (c, None)
        else match json_loads value with
             | Some v => (c, Some v)
             | None => _fallback_get c full_key now      (* json.loads raised *)
             end
    | Replies None => (c, None)
    | Fails _ => _fallback_get c full_key now
    end
  else _fallback_get c full_key now.

Definition ttl_or_default (ttl : option Z) (dflt : Z) : Z :=
  match ttl with
  | Some t => if t =? 0 then dflt else t
  | None => dflt
  end.

Definition set (c : RedisCache) (key : string) (value : V) (ttl : option Z) (now : Q)
    (reply : remote unit) : RedisCache * bool :=
  let full_key := full_key c key in
  let ttl := ttl_or_default ttl (default_ttl c) in
  match json_dumps value with
  | None => (c, false)
  | Some serialized =>
      if use_remote c then
        match reply with
        | Replies _ => (c, true)
        | Fails _ => _fallback_set c full_key value ttl now
        end
      else _fallback_set c full_key value ttl now
  end.

Definition delete (c : RedisCache) (key : string) (reply : remote unit) : RedisCache * bool :=
  let full_key := full_key c key in
  if use_remote c then
    match reply with
    | Replies _ => (c, true)
    | Fails _ => (c, false)
    end
  else (with_fallback c (base.delete full_key (_fallback_cache c)), true).

(** [reply] stands for the scan and the bulk delete: the keys found, or the
    failure of either call. *)
Definition clear_prefix (c : RedisCache) (pfx : string) (reply : remote (list string))
  : RedisCache * Z :=
  let full_prefix := _make_key c pfx in
  if use_remote c then
    match reply with
    | Replies keys => (c, Z.of_nat (length keys))
    | Fails _ => (c, 0)
    end
  else
    let keys_to_delete :=
      List.filter (String.prefix full_prefix) (map fst (map_to_list (_fallback_cache c))) in
    (with_fallback c (fold_left (fun m k => base.delete k m) keys_to_delete (_fallback_cache c)),
     Z.of_nat (length keys_to_delete)).

Definition exists_ (c : RedisCache) (key : string) (now : Q) (reply : remote Z) : bool :=
  let full_key := full_key c key in
  if use_remote c then
    match reply with
    | Replies n => 0 <? n
    | Fails _ => bool_decide (is_Some (_fallback_cache c !! full_key))
    end
  else
    match _fallback_cache c !! full_key with
    | Some (_, expires) => Qltb now expires
    | None => false
    end.

End Redis.

Arguments RedisCache : clear implicits.

(** A connected cache of strings with an empty fallback dict. *)
Definition connected_cache : RedisCache string :=
  mkRedisCache "eodhd:" 300 true true ∅.

End RedisCache.

(** ** Text helpers for the credential modules *)

(** [str.isspace] on one character (ASCII text). *)
Definition is_space (a : ascii) : bool :=
  let n := nat_of_ascii a in
  ((9 <=? n) && (n <=? 13) || (28 <=? n) && (n <=? 32))%nat.

Definition newline : ascii := ascii_of_nat 10.

Definition to_lower (a : ascii) : ascii :=
  let n := nat_of_ascii a in
  if ((65 <=? n) && (n <=? 90))%nat then ascii_of_nat (n + 32) else a.

Fixpoint dropWhile {A} (p : A -> bool) (l : list A) : list A :=
  match l with
  | [] => []
  | a :: l' => if p a then dropWhile p l' else l
  end.

Fixpoint takeWhile {A} (p : A -> bool) (l : list A) : list A :=
  match l with
  | [] => []
  | a :: l' => if p a then a :: takeWhile p l' else []
  end.

(** [s.strip()]. *)
Definition lstrip (l : list ascii) : list ascii := dropWhile is_space l.
Definition strip (l : list ascii) : list ascii := rev (lstrip (rev (lstrip l))).

(** [s.split()]: the maximal runs of non-space characters. *)
Fixpoint split_ws (cur : list ascii) (l : list ascii) : list string :=
  match l with
  | [] => match cur with [] => [] | _ => [string_of_list_ascii (rev cur)] end
  | a :: l' =>
      if is_space a then
        match cur with
        | [] => split_ws [] l'
        | _ => string_of_list_ascii (rev cur) :: split_ws [] l'
        end
      else split_ws (a :: cur) l'
  end.

Definition py_split (s : string) : list string := split_ws [] (list_ascii_of_string s).

(** [x in xs] on lists of strings. *)
Definition mem (x : string) (xs : list string) : bool := existsb (String.eqb x) xs.

(** ** app/oauth.py *)
Module OAuth.

(** The dataclass declares the types of its fields and does not enforce
    them: a field holds the value it was given.  [JNull] is [None]. *)
Record TokenInfo := mkTokenInfo {
  active : json;
  subject : json;
  client_id : json;
  scopes : list string;
  expires_at : json;
  issued_at : json
}.

Definition has_scope (t : TokenInfo) (scope : string) : bool :=
  mem scope (scopes t) || mem "full-access" (scopes t).

Definition has_any_scope (t : TokenInfo) (wanted : list string) : bool :=
  existsb (has_scope t) wanted.

Definition unorderable (type_name : string) : exn :=
  Exn "TypeError"
      ("'>' not supported between instances of 'float' and '" +:+ type_name +:+ "'").

(** [now > v] for a reading [now] of [time.time()]: the order of the
    numbers, a [bool] being an [int]; any other value raises [TypeError]. *)
Definition clock_after (now : Q) (v : json) : result bool :=
  match v with
  | JBool b => Return (Qltb (if b then 1 else 0) now)
  | JInt n => Return (Qltb (inject_Z n) now)
  | JFloat q => Return (Qltb q now)
  | JNonFinite NegInf => Return true
  | JNonFinite _ => Return false
  | JNull => Raise (unorderable "NoneType")
  | JStr _ => Raise (unorderable "str")
  | JList _ => Raise (unorderable "list")
  | JDict _ => Raise (unorderable "dict")
  end.

Definition is_expired (t : TokenInfo) (now : Q) : result bool :=
  match expires_at t with
  | JNull => Return false
  | e => clock_after now e
  end.

(** What the POST to the introspection endpoint meets: an exception
    (transport), or a status and what [response.json()] gives for the
    body. *)
Inductive introspection :=
| IntrospectionRaises (msg : string)
| IntrospectionResponse (status : Z) (body : result json).

(** [data.get(k)]. *)
Definition get_or_none (k : string) (data : list (string * json)) : json :=
  default JNull (dict_get k data).

(** Line 242: [data.get("scope", "").split() if data.get("scope") else []].
    A truthy entry that is not a string has no [split]. *)
Definition scope_list (data : list (string * json)) : result (list string) :=
  let scope := get_or_none "scope" data in
  if truthy scope then
    match scope with
    | JStr s => Return (py_split s)
    | _ => Raise (Exn "AttributeError" "object has no attribute 'split'")
    end
  else Return [].

Inductive call :=
| CallIntrospect (url : string) (token : string)
| CallLegacy (api_key : string).

Section Validator.

(** [hashlib.sha256(token.encode()).hexdigest()]. *)
Variable sha256_hexdigest : string -> string.

Record OAuthValidator := mkValidator {
  introspection_url : string;
  cache_ttl : Z;
  _cache : gmap string (TokenInfo * Q)
}.

Definition __init__ (introspection_url : string) (cache_ttl : Z) : OAuthValidator :=
  mkValidator introspection_url cache_ttl ∅.

Definition with_cache (v : OAuthValidator) (m : gmap string (TokenInfo * Q)) : OAuthValidator :=
  mkValidator (introspection_url v) (cache_ttl v) m.

Definition _cache_key (token : string) : string :=
  String.substring 0 32 (sha256_hexdigest token).

Definition _get_cached (v : OAuthValidator) (token : string) (now : Q)
  : OAuthValidator * option TokenInfo :=
  let key := _cache_key token in
  match _cache v !! key with
  | Some (info, cached_at) =>
      if Qltb (now - cached_at) (inject_Z (cache_ttl v)) then (v, Some info)
      else (with_cache v (delete key (_cache v)), None)
  | None => (v, None)
  end.

Definition _set_cached (v : OAuthValidator) (token : string) (info : TokenInfo) (now : Q)
  : OAuthValidator :=
  with_cache v (<[_cache_key token := (info, now)]> (_cache v)).

Definition inactive : TokenInfo :=
  mkTokenInfo (JBool false) JNull JNull [] JNull JNull.

(** Every exception inside the [try] ends in [TokenInfo(active=False)]:
    that of the transport, of [response.json()], of [data.get] on a
    document that is not an object, and of [split] on a scope that is not a
    string. *)
Definition _introspect_token (outcome : introspection) : TokenInfo :=
  match outcome with
  | IntrospectionRaises _ => inactive
  | IntrospectionResponse status body =>
      if negb (status =? 200) then inactive
      else match body with
           | Raise _ => inactive
           | Return (JDict data) =>
               match scope_list data with
               | Return scope =>
                   mkTokenInfo
                     (default (JBool false) (dict_get "active" data))
                     (get_or_none "sub" data)
                     (get_or_none "client_id" data)
                     scope
                     (get_or_none "exp" data)
                     (get_or_none "iat" data)
               | Raise _ => inactive
               end
           | Return _ => inactive
           end
  end.

(** The [TokenInfo] of the development fallback, lines 214-217. *)
Definition accepted_unverified : TokenInfo :=
  mkTokenInfo (JBool true) JNull JNull ["full-access"] JNull JNull.

(** [now] is the clock at the cache lookup, [later] the clock when the
    answer of the endpoint is stored. *)
Definition validate_token (v : OAuthValidator) (token : string) (now : Q)
    (outcome : introspection) (later : Q) : OAuthValidator * TokenInfo * list call :=
  match _get_cached v token now with
  | (v', Some cached) => (v', cached, [])
  | (v', None) =>
      if negb (String.eqb (introspection_url v') "") then
        let info := _introspect_token outcome in
        (_set_cached v' token info later, info, [CallIntrospect (introspection_url v') token])
      else
        (v', accepted_unverified, [])
  end.

(** The reading of the design document: whatever the configuration, the
    result is in the cache after the call. *)
Definition result_always_cached (v : OAuthValidator) (token : string) (now : Q)
    (outcome : introspection) (later : Q) : Prop :=
  let r := validate_token v token now outcome later in
  exists cached_at, _cache r.1.1 !! _cache_key token = Some (r.1.2, cached_at).

End Validator.

End OAuth.

(** ** app/auth.py *)
Module Auth.

Import OAuth.

Record AuthResult := mkAuthResult {
  authenticated : bool;
  user_id : json;                 (* a str, [None], or the [sub] of a token as it came *)
  method : option string;
  auth_scopes : list string;
  error : option string;
  error_description : option string
}.

(** [re.match(r"Bearer\s+(.+)", header, re.IGNORECASE)]: the text after the
    keyword, when the keyword is there. *)
Fixpoint after_keyword (kw : list ascii) (l : list ascii) : option (list ascii) :=
  match kw, l with
  | [], _ => Some l
  | k :: kw', a :: l' =>
      if Ascii.eqb (to_lower k) (to_lower a) then after_keyword kw' l' else None
  | _ :: _, [] => None
  end.

Definition not_newline (a : ascii) : bool := negb (Ascii.eqb a newline).

(** [\s+(.+)] on [pre ++ l], where [pre] (reversed) is the white space
    already taken by [\s+]: the longest run of white space that leaves a
    character other than a newline for the group; the group then runs to the
    end of the line.  [None] when no split matches. *)
Fixpoint group_after_spaces (pre_rev : list ascii) (l : list ascii) : option (list ascii) :=
  let backtrack :=
    (fix back (taken_rev : list ascii) (rest : list ascii) : option (list ascii) :=
       match taken_rev with
       | [] => None
       | a :: taken' =>
           match taken' with
           | [] => None                       (* \s+ keeps one character *)
           | _ => if not_newline a then Some (takeWhile not_newline (a :: rest))
                  else back taken' (a :: rest)
           end
       end) in
  match l with
  | [] => backtrack pre_rev []
  | a :: l' =>
      if is_space a then group_after_spaces (a :: pre_rev) l'
      else match pre_rev with
           | [] => None
           | _ => Some (takeWhile not_newline l)
           end
  end.

Definition extract_bearer_token (authorization_header : option string) : option string :=
  match authorization_header with
  | None => None
  | Some h =>
      if String.eqb h "" then None
      else
        match after_keyword (list_ascii_of_string "Bearer") (list_ascii_of_string h) with
        | None => None
        | Some rest =>
            match group_after_spaces [] rest with
            | Some g => Some (string_of_list_ascii (strip g))
            | None => None
            end
        end
  end.

(** What the GET on the user-profile endpoint meets: an exception (also
    from decoding the body), or a status and [str(data.get("id", ""))]. *)
Inductive legacy_outcome :=
| LegacyRaises (msg : string)
| LegacyResponse (status : Z) (id : result string).

Definition validate_legacy_api_key (outcome : legacy_outcome) : AuthResult :=
  let server_error :=
    mkAuthResult false JNull None [] (Some "server_error") (Some "Failed to validate API key") in
  match outcome with
  | LegacyRaises _ => server_error
  | LegacyResponse status id =>
      if status =? 200 then
        match id with
        | Return uid => mkAuthResult true (JStr uid) (Some "api_key") ["full-access"] None None
        | Raise _ => server_error
        end
      else mkAuthResult false JNull None [] (Some "invalid_token") (Some "Invalid or expired API key")
  end.

(** The shape of a result: a success carries no error and a method; a
    failure carries no method, no scope and an error code. *)
Definition well_formed (r : AuthResult) : Prop :=
  (authenticated r = true ->
     error r = None
     /\ (method r = Some "oauth" \/ method r = Some "api_key" \/ method r = Some "env"))
  /\ (authenticated r = false ->
      method r = None /\ auth_scopes r = []
      /\ (error r = Some "missing_token" \/ error r = Some "invalid_token"
          \/ error r = Some "server_error")).

(** The outside world of one [authenticate] call. *)
Record world := mkWorld {
  EODHD_API_KEY : option string;        (* app/config.py *)
  clock_lookup : Q;                     (* time.time() in _get_cached *)
  introspect : introspection;
  clock_store : Q;                      (* time.time() in _set_cached *)
  clock_check : Q;                      (* time.time() in is_expired *)
  legacy : legacy_outcome
}.

Definition nonempty (s : option string) : bool :=
  match s with
  | Some s => negb (String.eqb s "")
  | None => false
  end.

Section Middleware.

Variable sha256_hexdigest : string -> string.

Record AuthMiddleware := mkMiddleware {
  oauth_validator : OAuthValidator;
  allow_legacy_api_key : bool;
  allow_env_api_key : bool
}.

Definition with_validator (m : AuthMiddleware) (v : OAuthValidator) : AuthMiddleware :=
  mkMiddleware v (allow_legacy_api_key m) (allow_env_api_key m).

Definition env_result : AuthResult :=
  mkAuthResult true JNull (Some "env") ["full-access"] None None.

Definition missing_token (description : string) : AuthResult :=
  mkAuthResult false JNull None [] (Some "missing_token") (Some description).

(** [if s:] on an optional string: the string when it is set and not empty. *)
Definition if_truthy (s : option string) : option string :=
  match s with
  | Some s => if String.eqb s "" then None else Some s
  | None => None
  end.

(** Lines 183-195: [if token_info.active and not token_info.is_expired()].
    [and] tests the truth value of [active] and calls [is_expired] only
    when it holds; the [TypeError] of [is_expired] is not caught. *)
Definition bearer_result (token_info : TokenInfo) (now : Q) : result AuthResult :=
  let invalid :=
    mkAuthResult false JNull None [] (Some "invalid_token")
                 (Some "Token is invalid or expired") in
  if truthy (active token_info) then
    match is_expired token_info now with
    | Return false =>
        Return (mkAuthResult true (subject token_info) (Some "oauth") (scopes token_info)
                             None None)
    | Return true => Return invalid
    | Raise e => Raise e
    end
  else Return invalid.

Definition authenticate (m : AuthMiddleware) (authorization_header api_token_param : option string)
    (transport : string) (w : world) : AuthMiddleware * result AuthResult * list call :=
  if String.eqb transport "stdio" then
    if allow_env_api_key m && nonempty (EODHD_API_KEY w) then (m, Return env_result, [])
    else (m, Return (missing_token "EODHD_API_KEY environment variable not set"), [])
  else
    let bearer_token := extract_bearer_token authorization_header in
    match if_truthy bearer_token with
    | Some token =>
        let '(v, token_info, calls) :=
          validate_token sha256_hexdigest (oauth_validator m) token
                         (clock_lookup w) (introspect w) (clock_store w) in
        (with_validator m v, bearer_result token_info (clock_check w), calls)
    | None =>
        match (if allow_legacy_api_key m then if_truthy api_token_param else None) with
        | Some api_key => (m, Return (validate_legacy_api_key (legacy w)), [CallLegacy api_key])
        | None =>
            if allow_env_api_key m && nonempty (EODHD_API_KEY w) then (m, Return env_result, [])
            else (m, Return (missing_token "No valid authentication credentials provided"), [])
        end
    end.

(** What the validator answers for the bearer token of a request. *)
Definition validation (m : AuthMiddleware) (token : string) (w : world)
  : OAuthValidator * TokenInfo * list call :=
  validate_token sha256_hexdigest (oauth_validator m) token
                 (clock_lookup w) (introspect w) (clock_store w).

End Middleware.

(** A middleware with an introspection endpoint, and a world in which the
    endpoint answers 200 with a document that holds the given [active] and
    [exp]. *)
Definition demo_middleware : AuthMiddleware :=
  mkMiddleware (OAuth.__init__ "https://auth.example/introspect" 300) true true.

Definition demo_world (is_active exp : json) (now : Q) : world :=
  mkWorld (Some "env-key") now
    (IntrospectionResponse 200
       (Return (JDict [("active", is_active); ("sub", JStr "user-1");
                       ("scope", JStr "read:eod read:news"); ("exp", exp)])))
    now now (LegacyResponse 200 (Return "42")).

Definition expired_world : world := demo_world (JBool true) (JInt 100) 200.
Definition active_world : world := demo_world (JBool true) JNull 200.

(** Documents that a careless endpoint may send: [active] as the string
    ["false"], and [exp] as a string of digits. *)
Definition text_active_world : world := demo_world (JStr "false") JNull 200.
Definition text_exp_world : world := demo_world (JBool true) (JStr "1700000000") 200.

End Auth.

(** ** app/batch.py *)
Module Batch.

(** A batch item, a [Dict[str, str]]. *)
Definition item : Type := list (string * string).

Fixpoint item_get (k : string) (it : item) : option string :=
  match it with
  | [] => None
  | (k', v) :: it' => if String.eqb k k' then Some v else item_get k it'
  end.

(** What [asyncio.gather(..., return_exceptions=True)] holds for one task:
    the exception it raised, or the dict of [_fetch_with_semaphore]. *)
Inductive task_result :=
| TaskRaised (msg : string)
| TaskReturned (identifier : string) (data : json).

Record BatchResult := mkBatchResult {
  results : gmap string json;
  count : nat;
  total : nat;
  errors : option (list string)
}.

Section Process.

(** [str(item)] for an item without an ["id"], and [str(v)] for the value
    of an ["error"] field that is not a string. *)
Variable py_str_item : item -> string.
Variable py_repr : json -> string.

Definition py_str (v : json) : string :=
  match v with
  | JStr s => s
  | _ => py_repr v
  end.

Definition identifier_of (it : item) : string :=
  default (py_str_item it) (item_get "id" it).

Definition is_dict (v : json) : bool :=
  match v with JDict _ => true | _ => false end.

(** [data.get("error")] is truthy. *)
Definition has_error (data : json) : bool :=
  match data with
  | JDict d => match dict_get "error" d with Some e => truthy e | None => false end
  | _ => false
  end.

(** [data and not (isinstance(data, dict) and data.get("error"))]. *)
Definition is_success (data : json) : bool :=
  truthy data && negb (is_dict data && has_error data).

Definition error_msg (data : json) : string :=
  match data with
  | JDict d => match dict_get "error" d with Some e => py_str e | None => "Unknown error" end
  | _ => "No data"
  end.

(** One round of the [for result in results] loop. *)
Definition classify (acc : gmap string json * list string) (r : task_result)
  : gmap string json * list string :=
  match r with
  | TaskRaised msg => (acc.1, acc.2 ++ [msg])
  | TaskReturned identifier data =>
      if is_success data then (<[identifier := data]> acc.1, acc.2)
      else (acc.1, acc.2 ++ [identifier +:+ ": " +:+ error_msg data])
  end.

(** The first loop: a task per item; the URL builder is the caller's and
    may raise. *)
Fixpoint build_tasks (url_builder : item -> result string) (items : list item)
  : result (list (string * string)) :=
  match items with
  | [] => Return []
  | it :: items' =>
      let identifier := identifier_of it in
      match url_builder it with
      | Raise e => Raise e
      | Return url =>
          match build_tasks url_builder items' with
          | Raise e => Raise e
          | Return tasks => Return ((url, identifier) :: tasks)
          end
      end
  end.

(** [fetch i url] is what the [i]-th task meets in [make_request]: a value,
    or an exception that escapes the task. *)
Definition run_task (fetch : nat -> string -> result json) (i : nat) (task : string * string)
  : task_result :=
  match fetch i task.1 with
  | Return data => TaskReturned task.2 data
  | Raise e => TaskRaised (exn_msg e)
  end.

Definition gather (fetch : nat -> string -> result json) (tasks : list (string * string))
  : list task_result :=
  imap (run_task fetch) tasks.

Definition summarize (items : list item) (acc : gmap string json * list string) : BatchResult :=
  mkBatchResult acc.1 (size acc.1) (length items)
                (match acc.2 with [] => None | _ => Some acc.2 end).

Definition process (items : list item) (url_builder : item -> result string)
    (fetch : nat -> string -> result json) : result BatchResult :=
  match build_tasks url_builder items with
  | Raise e => Raise e
  | Return tasks =>
      Return (summarize items (fold_left classify (gather fetch tasks) (∅, [])))
  end.

(** [len(errors)], with the [None] of an empty list read as no error. *)
Definition error_count (r : BatchResult) : nat :=
  match errors r with Some l => length l | None => 0%nat end.

(** A task counts as a success when it returned a payload that passes the
    test of line 69. *)
Definition task_ok (t : task_result) : bool :=
  match t with
  | TaskReturned _ data => is_success data
  | TaskRaised _ => false
  end.

Definition task_failed (t : task_result) : bool := negb (task_ok t).

(** The identifiers of the successful tasks, in task order. *)
Definition ok_ids (rs : list task_result) : list string :=
  omap (fun t => match t with
                 | TaskReturned identifier data =>
                     if is_success data then Some identifier else None
                 | TaskRaised _ => None
                 end) rs.

(** The reading of the design document: the successes and the errors add up
    to the number of submitted items. *)
Definition accounts_for_every_item (items : list item)
    (url_builder : item -> result string) (fetch : nat -> string -> result json) : Prop :=
  forall r,
    process items url_builder fetch = Return r ->
    (count r + error_count r)%nat = total r.

End Process.

(** Three items of which the second one's fetch raises. *)
Definition demo_str (it : item) : string := "{...}".
Definition demo_repr (v : json) : string := "...".

Definition three_items : list item :=
  [[("id", "AAPL.US")]; [("id", "MSFT.US")]; [("id", "TSLA.US")]].

Definition demo_builder (it : item) : result string :=
  Return ("https://eodhd.com/api/real-time/" +:+ identifier_of demo_str it +:+ "?fmt=json").

Definition second_raises (i : nat) (url : string) : result json :=
  if (i =? 1)%nat then Raise (Exn "RuntimeError" "boom")
  else Return (JDict [("close", JInt 185)]).

Definition three_result : BatchResult :=
  mkBatchResult
    (<["TSLA.US" := JDict [("close", JInt 185)]]>
       (<["AAPL.US" := JDict [("close", JInt 185)]]> ∅))
    2 3 (Some ["boom"]).

End Batch.

(** ** app/api_client.py: the shape of a run *)
Module Backoff.

Import ApiClient.

(** The value of [_calculate_retry_delay] where the conversion succeeds. *)
Definition retry_delay (attempt : nat) : Q :=
  py_min (RETRY_DELAY_BASE * inject_Z (2 ^ Z.of_nat attempt)) RETRY_DELAY_MAX.

(** The events of [k] consecutive attempts from [attempt] on, each one
    followed by the sleep [pause] gives for it. *)
Definition rounds (url : string) (timeout : Q) (pause : nat -> Q) (attempt k : nat)
  : list event :=
  flat_map (fun i => [EvAttempt i url timeout; EvSleep (pause i)]) (seq attempt k).

(** An answer 429 whose [Retry-After] reads as [n] seconds. *)
Definition limited (o : http_outcome) (n : Z) : Prop :=
  exists r, o = Responded r /\ status_code r = 429
            /\ retry_after_seconds (retry_after r) = Return n.

(** [last_error] after [k] failed attempts from [attempt] on. *)
Definition last_after (msg : nat -> string) (attempt k : nat) (last : option string)
  : option string :=
  match k with
  | O => last
  | S k' => Some (msg (attempt + k')%nat)
  end.

Definition is_attempt_of (url : string) (e : event) : Prop :=
  match e with
  | EvAttempt _ u _ => u = url
  | EvSleep _ => True
  | EvPost u _ => u = url
  end.

(** Answers used to run the engine on. *)
Definition quote_response : response :=
  Response 200 RetryAfterAbsent "application/json"
           (Return (JDict [("close", JInt 185)])) "" "".

Definition fail_twice : nat -> http_outcome :=
  script [status_only 503 RetryAfterAbsent; status_only 503 RetryAfterAbsent]
         (Responded quote_response).

Definition always_limited : nat -> http_outcome :=
  fun _ => status_only 429 RetryAfterAbsent.

End Backoff.

(** ** app/api_client.py: the pacing gate *)
Module RateLimiter.

(** The two module globals. *)
Record state := mkState {
  _last_request_time : Q;
  _rate_limit_delay : Q
}.


(** Lines 38-41: the time to sleep when the last request is too recent. *)
Definition wait_needed (s : state) (now : Q) : option Q :=
  let elapsed := (now - _last_request_time s)%Q in
  if Qltb elapsed (_rate_limit_delay s) then Some (_rate_limit_delay s - elapsed)%Q
  else None.

(** Line 42. *)
Definition stamp (s : state) (clock : Q) : state :=
  mkState clock (_rate_limit_delay s).

(** [_rate_limit] is a coroutine and takes no lock.  The [await] of line 41
    hands control to the event loop, so that other callers (the tasks that
    [asyncio.gather] runs in [app/batch.py]) enter and leave between line 41
    and line 42 of a sleeping one.  A limiter holds the globals, the callers
    that are asleep with the time each asked for, and the callers that have
    returned with the clock their line 42 read, oldest first. *)
Record limiter := mkLimiter {
  globals : state;
  sleeping : gmap nat Q;
  released : list (nat * Q)
}.

(** What the event loop runs next: a caller enters [_rate_limit] (line 38
    reads [now]; line 42 reads [clock42] when the caller does not sleep), or
    the sleep of a caller is over (its line 42 reads [woke]). *)
Inductive move :=
| Call (caller : nat) (now clock42 : Q)
| Wake (caller : nat) (woke : Q).

(** [_rate_limit()], from one point where it holds control to the next. *)
Definition _rate_limit (g : limiter) (m : move) : limiter :=
  match m with
  | Call caller now clock42 =>
      match wait_needed (globals g) now with
      | Some d => mkLimiter (globals g) (<[caller := d]> (sleeping g)) (released g)
      | None =>
          mkLimiter (stamp (globals g) clock42) (sleeping g) (released g ++ [(caller, clock42)])
      end
  | Wake caller woke =>
      match sleeping g !! caller with
      | Some _ =>
          mkLimiter (stamp (globals g) woke) (delete caller (sleeping g))
                 (released g ++ [(caller, woke)])
      | None => g
      end
  end.

Definition run (g : limiter) (ms : list move) : limiter := fold_left _rate_limit ms g.


(** A limiter at rest whose last request was stamped at 4, with a delay of 2. *)
Definition idle_limiter : limiter := mkLimiter (mkState 4 2) ∅ [].

End RateLimiter.

(** ** app/cache.py: statistics and the [cached] decorator *)
Module CacheUse.

Import Cache.

Section Decorator.

Context {V : Type}.

(** The counters that [stats] reports beside the size. *)
Definition lookups (c : TTLCache V) : Z := _hits c + _misses c.

(** The [get] calls of a history since its last [clear]. *)
Definition gets_since_clear (ops : list (op V * Q)) : nat :=
  fold_left (fun n o => match o.1 with
                        | Get _ => S n
                        | Clear => 0%nat
                        | _ => n
                        end) ops 0%nat.

(** One call of a function wrapped by [cached(ttl, key_prefix)], on the
    cache [c] (the module's [_cache]), under the key the wrapper computes.
    [func] is what the wrapped function does when it is called: it returns
    [None], returns a value, or raises.  [now] is the clock of the lookup,
    [later] the clock when the result is stored.  The last component tells
    whether the wrapped function was called. *)
Definition cached_call (c : TTLCache V) (cache_key : string) (ttl : option Z)
    (func : result (option V)) (now later : Q) : TTLCache V * result (option V) * bool :=
  match get c cache_key now with
  | (c1, Some v) => (c1, Return (Some v), false)
  | (c1, None) =>
      match func with
      | Raise e => (c1, Raise e, true)
      | Return None => (c1, Return None, true)
      | Return (Some v) =>
          match set c1 cache_key v ttl later with
          | (c2, Return _) => (c2, Return (Some v), true)
          | (c2, Raise e) => (c2, Raise e, true)
          end
      end
  end.

End Decorator.

End CacheUse.

(** ** app/redis_cache.py: the connection *)
Module RedisConn.

Import RedisCache.

Inductive connect_outcome :=
| FromUrlRaises (msg : string)
| PingRaises (msg : string)
| PingAnswers.

Section Conn.

Context {V : Type}.

(** [REDIS_AVAILABLE] tells whether the [redis] package was importable. *)
Variable REDIS_AVAILABLE : bool.

Definition connect (c : RedisCache V) (o : connect_outcome) : RedisCache V * bool :=
  if negb REDIS_AVAILABLE then (c, false)
  else
    match o with
    | FromUrlRaises _ =>
        (mkRedisCache (prefix c) (default_ttl c) (_client c) false (_fallback_cache c), false)
    | PingRaises _ =>
        (mkRedisCache (prefix c) (default_ttl c) true false (_fallback_cache c), false)
    | PingAnswers =>
        (mkRedisCache (prefix c) (default_ttl c) true true (_fallback_cache c), true)
    end.

(** [close] is what [self._client.close()] does; its exception is not caught. *)
Definition disconnect (c : RedisCache V) (close : remote unit) : RedisCache V * result unit :=
  if _client c && _connected c then
    match close with
    | Replies _ =>
        (mkRedisCache (prefix c) (default_ttl c) (_client c) false (_fallback_cache c), Return ())
    | Fails msg => (c, Raise (Exn "Exception" msg))
    end
  else (c, Return ()).

End Conn.

(** A cache of strings that was never connected. *)
Definition offline_cache : RedisCache string := RedisCache.__init__ "eodhd:" 300.

(** The same cache after [set("quote:AAPL", "185", ttl=60)] and
    [set("news:AAPL", "headline", ttl=60)] at time 0: two entries in the
    fallback dict, both expiring at 60. *)
Definition stocked_cache : RedisCache string :=
  (RedisCache.set (fun k => k) Some
     (RedisCache.set (fun k => k) Some offline_cache "quote:AAPL" "185" (Some 60) 0
        (Fails "unused")).1
     "news:AAPL" "headline" (Some 60) 0 (Fails "unused")).1.

End RedisConn.

(** ** app/oauth.py and app/auth.py: scopes *)
Module Scopes.

Import Auth.

Definition TOOL_SCOPES : list (string * list string) :=
  [
   ("get_historical_stock_prices", ["read:eod"; "full-access"]);
   ("get_bulk_eod", ["read:eod"; "full-access"]);
   ("get_historical_dividends", ["read:eod"; "full-access"]);
   ("get_historical_splits", ["read:eod"; "full-access"]);
   ("get_intraday_historical_data", ["read:intraday"; "full-access"]);
   ("get_us_tick_data", ["read:intraday"; "full-access"]);
   ("get_live_price_data", ["read:live"; "full-access"]);
   ("get_us_live_extended_quotes", ["read:live"; "full-access"]);
   ("get_batch_quotes", ["read:live"; "full-access"]);
   ("get_fundamentals_data", ["read:fundamentals"; "full-access"]);
   ("get_esg_scores", ["read:fundamentals"; "full-access"]);
   ("get_analyst_ratings", ["read:fundamentals"; "full-access"]);
   ("get_price_targets", ["read:fundamentals"; "full-access"]);
   ("get_institutional_holders", ["read:fundamentals"; "full-access"]);
   ("get_short_interest", ["read:fundamentals"; "full-access"]);
   ("get_fund_holdings", ["read:fundamentals"; "full-access"]);
   ("get_bond_fundamentals", ["read:fundamentals"; "full-access"]);
   ("get_company_news", ["read:news"; "full-access"]);
   ("get_financial_news", ["read:news"; "full-access"]);
   ("get_sentiment_data", ["read:news"; "full-access"]);
   ("get_news_word_weights", ["read:news"; "full-access"]);
   ("get_technical_indicators", ["read:technicals"; "full-access"]);
   ("get_us_options_contracts", ["read:options"; "full-access"]);
   ("get_us_options_eod", ["read:options"; "full-access"]);
   ("get_us_options_underlyings", ["read:options"; "full-access"]);
   ("mp_illio_performance_insights", ["read:marketplace"; "full-access"]);
   ("mp_illio_risk_insights", ["read:marketplace"; "full-access"]);
   ("get_mp_praams_risk_scoring_by_ticker", ["read:marketplace"; "full-access"]);
   ("get_mp_investverte_esg_view_company", ["read:marketplace"; "full-access"]);
   ("stock_screener", ["read:screener"; "full-access"]);
   ("get_stocks_from_search", ["read:screener"; "full-access"]);
   ("get_market_movers", ["read:screener"; "full-access"]);
   ("get_sector_performance", ["read:screener"; "full-access"]);
   ("get_macro_indicator", ["read:macro"; "full-access"]);
   ("get_economic_events", ["read:macro"; "full-access"]);
   ("get_user_details", ["read:user"; "full-access"]);
   ("get_exchanges_list", ["read:eod"; "full-access"]);
   ("get_exchange_tickers", ["read:eod"; "full-access"]);
   ("get_exchange_details", ["read:eod"; "full-access"]);
   ("get_available_exchanges", ["read:eod"; "full-access"]);
   ("get_trading_hours", ["read:eod"; "full-access"])
  ].

Fixpoint lookup_tool (tool_name : string) (table : list (string * list string))
  : option (list string) :=
  match table with
  | [] => None
  | (k, v) :: table' => if String.eqb tool_name k then Some v else lookup_tool tool_name table'
  end.

(** [TOOL_SCOPES.get(tool_name, ["full-access"])]. *)
Definition get_required_scopes (tool_name : string) : list string :=
  default ["full-access"] (lookup_tool tool_name TOOL_SCOPES).

(** [AuthMiddleware.check_scope]. *)
Definition check_scope (auth_result : AuthResult) (tool_name : string) : bool :=
  if negb (authenticated auth_result) then false
  else existsb (fun scope => mem scope (auth_scopes auth_result))
               (get_required_scopes tool_name).

(** A validator that holds an old answer for the token ["tok"], and a
    middleware whose validator has no endpoint. *)
Definition stale_validator : OAuth.OAuthValidator :=
  OAuth._set_cached (fun s => s) (OAuth.__init__ "https://auth.example/introspect" 300)
                    "tok" OAuth.inactive 0.

Definition open_middleware : AuthMiddleware :=
  mkMiddleware (OAuth.__init__ "" 300) true true.

Definition no_bearer_world (status : Z) : world :=
  mkWorld (Some "env-key") 0 (OAuth.IntrospectionRaises "unused") 0 0
          (LegacyResponse status (Return "42")).

End Scopes.

(** ** app/batch.py: the helpers built on [process] *)
Module BatchHelpers.

Import Batch.

Section Helpers.

(** [EODHD_API_BASE] comes from [app/config.py]. *)
Variable EODHD_API_BASE : string.
Variable py_str_item : item -> string.
Variable py_repr : json -> string.

(** [[{"id": s, "symbol": s} for s in symbols]]. *)
Definition items_of (symbols : list string) : list item :=
  map (fun s => [("id", s); ("symbol", s)]) symbols.

(** [item['symbol']] raises [KeyError] on an item without that key. *)
Definition symbol_of (it : item) : result string :=
  match item_get "symbol" it with
  | Some s => Return s
  | None => Raise (Exn "KeyError" "'symbol'")
  end.

Definition quotes_url (it : item) : result string :=
  match symbol_of it with
  | Return s => Return (EODHD_API_BASE +:+ "/real-time/" +:+ s +:+ "?fmt=json")
  | Raise e => Raise e
  end.

Definition batch_quotes (symbols : list string) (fetch : nat -> string -> result json)
  : result BatchResult :=
  process py_str_item py_repr (items_of symbols) quotes_url fetch.

Definition eod_url (date : option string) (it : item) : result string :=
  match symbol_of it with
  | Return s =>
      let url := EODHD_API_BASE +:+ "/eod/" +:+ s +:+ "?fmt=json&order=d&limit=1" in
      Return (match Auth.if_truthy date with
              | Some d => url +:+ "&from=" +:+ d +:+ "&to=" +:+ d
              | None => url
              end)
  | Raise e => Raise e
  end.

Definition batch_eod (symbols : list string) (date : option string)
    (fetch : nat -> string -> result json) : result BatchResult :=
  process py_str_item py_repr (items_of symbols) (eod_url date) fetch.

Definition fundamentals_url (filter_fields : option string) (it : item) : result string :=
  match symbol_of it with
  | Return s =>
      let url := EODHD_API_BASE +:+ "/fundamentals/" +:+ s in
      Return (match Auth.if_truthy filter_fields with
              | Some f => url +:+ "?filter=" +:+ f
              | None => url
              end)
  | Raise e => Raise e
  end.

Definition batch_fundamentals (symbols : list string) (filter_fields : option string)
    (fetch : nat -> string -> result json) : result BatchResult :=
  process py_str_item py_repr (items_of symbols) (fundamentals_url filter_fields) fetch.

(** The entry that a failed task leaves in the error list. *)
Definition error_entry (t : task_result) : string :=
  match t with
  | TaskRaised msg => msg
  | TaskReturned identifier data => identifier +:+ ": " +:+ error_msg py_repr data
  end.

End Helpers.

End BatchHelpers.

(** ** app/health.py *)
Module Health.

Import ApiClient.

Record HealthChecker := mkHealthChecker {
  start_time : Q;
  _last_api_check : Q;
  _api_healthy : bool;
  _api_check_interval : Q
}.

Definition __init__ (now : Q) : HealthChecker := mkHealthChecker now 0 true 60.

Section Checks.

(** [EODHD_API_KEY] and [EODHD_API_BASE] come from [app/config.py]. *)
Variable EODHD_API_KEY : option string.
Variable EODHD_API_BASE : string.

(** [result is not None and not (isinstance(result, dict) and
    result.get("error"))]. *)
Definition healthy_result (v : json) : bool :=
  match v with
  | JNull => false
  | _ => negb (Batch.is_dict v && Batch.has_error v)
  end.

(** [_check_api]: [env] is what the upstream answers to the requests of
    [make_request(url)] (timeout 30, [MAX_RETRIES] retries). *)
Definition _check_api (h : HealthChecker) (now : Q) (env : nat -> http_outcome)
  : HealthChecker * bool * list event :=
  if Qltb (now - _last_api_check h) (_api_check_interval h) then (h, _api_healthy h, [])
  else
    let url := EODHD_API_BASE +:+ "/exchanges-list/?fmt=json" in
    let r := make_request EODHD_API_KEY env url 30 MAX_RETRIES in
    let healthy := match r.2 with
                   | Return v => healthy_result v
                   | Raise _ => false
                   end in
    (mkHealthChecker (start_time h) now healthy (_api_check_interval h), healthy, r.1).

End Checks.

End Health.

Lemma Qltb_lt x y : Qltb x y = true <-> (x < y)%Q.
Proof.
  unfold Qltb. rewrite negb_true_iff, <- not_true_iff_false, Qle_bool_iff.
  split; [apply Qnot_le_lt | apply Qlt_not_le].
Qed.

Lemma Qltb_ge x y : Qltb x y = false <-> (y <= x)%Q.
Proof.
  unfold Qltb. rewrite negb_false_iff. apply Qle_bool_iff.
Qed.

(** * Properties of the retrying request engine *)
Section ApiClientFacts.

Import ApiClient.

Variable key : option string.

Lemma emit_app {A} (e1 e2 : list event) (k : run A) :
  emit e1 (emit e2 k) = emit (e1 ++ e2) k.
Proof. unfold emit; simpl. by rewrite app_assoc. Qed.

Lemma count_attempts_app (e1 e2 : list event) :
  count_attempts (e1 ++ e2) = (count_attempts e1 + count_attempts e2)%nat.
Proof. unfold count_attempts. by rewrite List.filter_app, length_app. Qed.

(** The conversion of a power of two succeeds below the range of a double. *)
Lemma float_of_pow2 (n : nat) :
  (n < 1024)%nat -> float_of_int (2 ^ Z.of_nat n) = Return (inject_Z (2 ^ Z.of_nat n)).
Proof.
  intros Hn. unfold float_of_int.
  assert (H : (Z.abs (2 ^ Z.of_nat n) <? 2 ^ 1024) = true).
  { apply Z.ltb_lt. rewrite Z.abs_eq by (apply Z.pow_nonneg; lia).
    apply Z.pow_lt_mono_r; lia. }
  by rewrite H.
Qed.

Lemma float_of_pow2_overflow (n : nat) :
  (1024 <= n)%nat ->
  float_of_int (2 ^ Z.of_nat n) = Raise (Exn "OverflowError" "int too large to convert to float").
Proof.
  intros Hn. unfold float_of_int.
  assert (H : (Z.abs (2 ^ Z.of_nat n) <? 2 ^ 1024) = false).
  { apply Z.ltb_ge. rewrite Z.abs_eq by (apply Z.pow_nonneg; lia).
    apply Z.pow_le_mono_r; lia. }
  by rewrite H.
Qed.

(** [_calculate_retry_delay] below the overflow: [min(base * 2^i, cap)]. *)
Lemma calculate_retry_delay_min (i : nat) :
  (i < 1024)%nat ->
  exists d, _calculate_retry_delay i = Return d /\
            (d == Qmin (RETRY_DELAY_BASE * inject_Z (2 ^ Z.of_nat i)) RETRY_DELAY_MAX)%Q.
Proof.
  intros Hi. unfold _calculate_retry_delay. rewrite float_of_pow2 by done.
  eexists; split; [reflexivity |].
  unfold py_min. destruct (Qltb _ _) eqn:E.
  - apply Qltb_lt in E. symmetry. apply Q.min_r. by apply Qlt_le_weak.
  - apply Qltb_ge in E. symmetry. by apply Q.min_l.
Qed.

Lemma retry_delay_schedule :
  map _calculate_retry_delay [0; 1; 2; 3; 4; 5]%nat
  = map Return [1; 2; 4; 8; 10; 10]%Q.
Proof. reflexivity. Qed.


Lemma count_attempts_emit {A} (evs : list event) (k : run A) :
  count_attempts (emit evs k).1 = (count_attempts evs + count_attempts k.1)%nat.
Proof. apply count_attempts_app. Qed.

(** Every iteration of the loop issues one request: a run never issues more
    requests than iterations. *)
Lemma attempts_count env url timeout retries todo attempt last :
  (count_attempts (attempts env url timeout retries todo attempt last).1 <= todo)%nat.
Proof.
  revert attempt last. induction todo as [|todo IH]; intros attempt last.
  - unfold count_attempts. simpl. lia.
  - assert (Hb : forall msg,
      (count_attempts (backoff retries attempt
          (attempts env url timeout retries todo (S attempt) msg)).1 <= todo)%nat).
    { intros msg. unfold backoff.
      destruct (Z.of_nat attempt <? retries); [|apply IH].
      destruct (_calculate_retry_delay attempt).
      - rewrite count_attempts_emit. specialize (IH (S attempt) msg).
        change (count_attempts [EvSleep a]) with 0%nat. lia.
      - unfold count_attempts; simpl; lia. }
    cbn [attempts]. rewrite count_attempts_emit.
    change (count_attempts [EvAttempt attempt url timeout]) with 1%nat.
    destruct (env attempt) as [r|msg|msg|msg].
    + destruct (status_code r =? 429).
      * destruct (retry_after_seconds (retry_after r)) as [n|e];
          [destruct (asyncio_sleep n) as [d|e]|].
        -- rewrite count_attempts_emit. specialize (IH (S attempt) last).
           change (count_attempts [EvSleep d]) with 0%nat. lia.
        -- unfold count_attempts; simpl; lia.
        -- unfold count_attempts; simpl; lia.
      * destruct (is_success r); [unfold count_attempts; simpl; lia|].
        destruct (_ && _); [unfold count_attempts; simpl; lia|].
        specialize (Hb (Some (status_error r))). lia.
    + specialize (Hb (Some msg)). lia.
    + specialize (Hb (Some msg)). lia.
    + unfold count_attempts; simpl; lia.
Qed.

(** Below the overflow of the back-off computation the GET engine is total:
    it returns, and what it returns is a payload or a structured error. *)
Lemma attempts_total env url timeout retries todo attempt last :
  retries <= 1024 ->
  exists v, (attempts env url timeout retries todo attempt last).2 = Return v
            /\ well_formed_return v.
Proof.
  intros Hr. revert attempt last. induction todo as [|todo IH]; intros attempt last.
  - eexists; split; [reflexivity|]. left. by eexists.
  - assert (Hb : forall msg, exists v,
      (backoff retries attempt
          (attempts env url timeout retries todo (S attempt) msg)).2 = Return v
      /\ well_formed_return v).
    { intros msg. unfold backoff.
      destruct (Z.of_nat attempt <? retries) eqn:E; [|apply IH].
      apply Z.ltb_lt in E.
      destruct (calculate_retry_delay_min attempt) as (d & -> & _); [lia|].
      apply IH. }
    cbn [attempts]. unfold emit at 1. cbn [snd].
    destruct (env attempt) as [r|msg|msg|msg].
    + destruct (status_code r =? 429).
      * destruct (retry_after_seconds (retry_after r)) as [n|e];
          [destruct (asyncio_sleep n) as [d|e]|].
        -- apply IH.
        -- eexists; split; [reflexivity|]. left. by eexists.
        -- eexists; split; [reflexivity|]. left. by eexists.
      * destruct (is_success r) eqn:Es.
        { eexists; split; [reflexivity|]. right. by exists r. }
        destruct (_ && _).
        { eexists; split; [reflexivity|]. left. by eexists. }
        apply Hb.
    + apply Hb.
    + apply Hb.
    + eexists; split; [reflexivity|]. left. by eexists.
Qed.

Lemma make_request_total env url timeout retries :
  retries <= 1024 ->
  exists v, (make_request key env url timeout retries).2 = Return v /\ well_formed_return v.
Proof. intros Hr. by apply attempts_total. Qed.

(** The POST variant is total without any condition. *)
Lemma make_post_request_total outcome url timeout :
  exists v, (make_post_request key outcome url timeout).2 = Return v
            /\ (is_error_dict v \/
                exists r, outcome = Responded r /\ is_success r = true /\ json_body r = Return v).
Proof.
  unfold make_post_request, emit; cbn [snd].
  eexists; split; [reflexivity|].
  destruct outcome as [r|msg|msg|msg]; try (left; by eexists).
  destruct (is_success r) eqn:Es; [|left; by eexists].
  destruct (json_body r) as [v|e] eqn:Ej; [right; by exists r | left; by eexists].
Qed.


(** Classification of one answer (lines 106-134). *)
Lemma client_error_not_retried env url timeout retries todo attempt last r :
  env attempt = Responded r ->
  400 <= status_code r < 500 -> status_code r <> 429 ->
  attempts env url timeout retries (S todo) attempt last =
    ([EvAttempt attempt url timeout],
     Return (error_dict ("HTTP " +:+ pretty (status_code r) +:+ ": " +:+ status_error r))).
Proof.
  intros He Hs Hn. cbn [attempts]. rewrite He.
  replace (status_code r =? 429) with false by (symmetry; apply Z.eqb_neq; lia).
  replace (is_success r) with false
    by (unfold is_success; symmetry; apply andb_false_iff; right; apply Z.ltb_ge; lia).
  replace (400 <=? status_code r) with true by (symmetry; apply Z.leb_le; lia).
  replace (status_code r <? 500) with true by (symmetry; apply Z.ltb_lt; lia).
  reflexivity.
Qed.

Lemma transient_error_retried env url timeout retries todo attempt last o msg :
  env attempt = o -> transient o msg ->
  Z.of_nat attempt < retries -> (attempt < 1024)%nat ->
  exists d,
    _calculate_retry_delay attempt = Return d /\
    (d == Qmin (RETRY_DELAY_BASE * inject_Z (2 ^ Z.of_nat attempt)) RETRY_DELAY_MAX)%Q /\
    attempts env url timeout retries (S todo) attempt last =
      emit [EvAttempt attempt url timeout; EvSleep d]
           (attempts env url timeout retries todo (S attempt) (Some msg)).
Proof.
  intros He Ht Hlt Hov.
  destruct (calculate_retry_delay_min attempt Hov) as (d & Hd & Hq).
  exists d. split; [done|]. split; [done|].
  assert (Hb : forall k, backoff retries attempt k = emit [EvSleep d] k).
  { intros k. unfold backoff. rewrite Hd.
    by replace (Z.of_nat attempt <? retries) with true by (symmetry; apply Z.ltb_lt; lia). }
  cbn [attempts]. rewrite He.
  destruct Ht as [-> | [-> | (r & -> & -> & Hs)]].
  - by rewrite Hb, emit_app.
  - by rewrite Hb, emit_app.
  - replace (status_code r =? 429) with false by (symmetry; apply Z.eqb_neq; lia).
    replace (is_success r) with false
      by (unfold is_success; symmetry; apply andb_false_iff; right; apply Z.ltb_ge; lia).
    replace (status_code r <? 500) with false by (symmetry; apply Z.ltb_ge; lia).
    rewrite andb_false_r. cbn [andb]. by rewrite Hb, emit_app.
Qed.

(** [asyncio.sleep] on an int below the range of a double, and beyond it. *)
Lemma asyncio_sleep_ok (n : Z) :
  n < SLEEP_OVERFLOW -> asyncio_sleep n = Return (inject_Z n).
Proof.
  intros H. unfold asyncio_sleep.
  by replace (n <? SLEEP_OVERFLOW) with true by (symmetry; by apply Z.ltb_lt).
Qed.

Lemma asyncio_sleep_overflow (n : Z) :
  SLEEP_OVERFLOW <= n ->
  asyncio_sleep n = Raise (Exn "OverflowError" "int too large to convert to float").
Proof.
  intros H. unfold asyncio_sleep.
  by replace (n <? SLEEP_OVERFLOW) with false by (symmetry; by apply Z.ltb_ge).
Qed.

(** Lines 84-88 on one answer: the sleep, then the next iteration. *)
Lemma rate_limited_step env url timeout retries todo attempt last r n :
  env attempt = Responded r -> status_code r = 429 ->
  retry_after_seconds (retry_after r) = Return n -> n < SLEEP_OVERFLOW ->
  attempts env url timeout retries (S todo) attempt last =
    emit [EvAttempt attempt url timeout; EvSleep (inject_Z n)]
         (attempts env url timeout retries todo (S attempt) last).
Proof.
  intros He Hs Hn Hlt. cbn [attempts].
  rewrite He, Hs, Hn, asyncio_sleep_ok by done. cbn [Z.eqb Pos.eqb]. by rewrite emit_app.
Qed.

(** A [Retry-After] beyond the range of a double: [asyncio.sleep] raises
    inside the [try], and line 128 returns the error at once. *)
Lemma rate_limited_overflow env url timeout retries todo attempt last r n :
  env attempt = Responded r -> status_code r = 429 ->
  retry_after_seconds (retry_after r) = Return n -> SLEEP_OVERFLOW <= n ->
  attempts env url timeout retries (S todo) attempt last =
    ([EvAttempt attempt url timeout],
     Return (error_dict "int too large to convert to float")).
Proof.
  intros He Hs Hn Hge. cbn [attempts].
  rewrite He, Hs, Hn, asyncio_sleep_overflow by done. reflexivity.
Qed.

(** C1 (amended): a 429 received while an iteration of the attempt loop is
    left, whose [Retry-After] is absent or an integer that [asyncio.sleep]
    accepts, makes the engine sleep that long (60 seconds when absent), with
    no back-off delay, and then issue the next request; the attempt counts
    like any other, so one iteration fewer is left, and a run never issues
    more than [retries + 1] requests, 429 answers included. *)
Theorem rate_limited_attempt_counts env url timeout retries todo attempt last r n :
  env attempt = Responded r -> status_code r = 429 ->
  retry_after_seconds (retry_after r) = Return n -> n < SLEEP_OVERFLOW ->
  attempts env url timeout retries (S (S todo)) attempt last =
    emit [EvAttempt attempt url timeout; EvSleep (inject_Z n)]
         (attempts env url timeout retries (S todo) (S attempt) last)
  /\ (exists rest,
        attempts env url timeout retries (S todo) (S attempt) last =
          emit [EvAttempt (S attempt) url timeout] rest)
  /\ retry_after_seconds RetryAfterAbsent = Return 60
  /\ (count_attempts (make_request key env url timeout retries).1 <= Z.to_nat (retries + 1))%nat.
Proof.
  intros He Hs Hn Hlt.
  split; [by apply rate_limited_step with r|].
  split; [cbn [attempts]; by eexists|].
  split; [done | apply attempts_count].
Qed.

End ApiClientFacts.

(** C1, as stated, fails: with [retries = 1] the answers 429, 503, 200 end
    in the error of the 503.  The 429 has used up the first of the two
    iterations, so the 503 is met on the last one and is not retried; had
    the budget been untouched, the 503 would have been retried and the 200
    returned. *)
Lemma rate_limit_consumes_budget_example :
  ~ ApiClient.rate_limit_outside_budget None
      (ApiClient.script [ApiClient.status_only 429 ApiClient.RetryAfterAbsent;
                         ApiClient.status_only 503 ApiClient.RetryAfterAbsent]
                        (ApiClient.ok_json (JInt 1))) "u" 30 1.
Proof.
  intros H. specialize (H _ 60 eq_refl eq_refl eq_refl).
  destruct H as [_ H]. vm_compute in H. discriminate.
Qed.

Lemma rate_limited_attempt_counts_witness :
  ApiClient.limited_once 0%nat = ApiClient.status_only 429 (ApiClient.RetryAfterInt 7)
  /\ ApiClient.retry_after_seconds (ApiClient.RetryAfterInt 7) = Return 7
  /\ 7 < ApiClient.SLEEP_OVERFLOW
  /\ ApiClient.attempts ApiClient.limited_once "u" 30 1 2 0 None =
    ApiClient.emit [ApiClient.EvAttempt 0 "u" 30; ApiClient.EvSleep (inject_Z 7)]
                   (ApiClient.attempts ApiClient.limited_once "u" 30 1 1 1 None)
  /\ (ApiClient.make_request None ApiClient.limited_once "u?api_token=k" 30 1).2
     = Return (JInt 1).
Proof.
  assert (H : 7 < ApiClient.SLEEP_OVERFLOW) by (vm_compute; reflexivity).
  split; [reflexivity|]. split; [reflexivity|]. split; [exact H|].
  split; [|reflexivity].
  exact (proj1 (rate_limited_attempt_counts None ApiClient.limited_once "u" 30 1 0%nat 0%nat None
           (ApiClient.Response 429 (ApiClient.RetryAfterInt 7) ""
              (Raise (Exn "JSONDecodeError" "Expecting value")) "" ("status " +:+ pretty 429)) 7
           eq_refl eq_refl eq_refl H)).
Defined.

(** C3: the retry loop lets an exception escape.  With [retries = 1025] and
    an upstream that times out every time, the back-off computation after
    attempt 1024 evaluates [1.0 * 2 ** 1024] outside the [try] and the
    [OverflowError] reaches the caller. *)
Theorem make_request_overflow_escapes :
  (ApiClient.make_request None ApiClient.always_timeout "https://eodhd.com/api/eod/AAPL.US" 30 1025).2
  = Raise (Exn "OverflowError" "int too large to convert to float").
Proof. vm_compute. reflexivity. Qed.

(** C6: the delay after attempt 1024 is not [min(1.0 * 2^1024, 10.0) = 10]:
    [_calculate_retry_delay 1024] raises, so an upstream that keeps failing
    is tried 1025 times although [retries = 2000] allows 2001 attempts. *)
Theorem retry_delay_overflow_ends_retries :
  ApiClient._calculate_retry_delay 1024
    = Raise (Exn "OverflowError" "int too large to convert to float")
  /\ ApiClient.count_attempts
       (ApiClient.make_request None ApiClient.always_unavailable
          "https://eodhd.com/api/eod/AAPL.US" 30 2000).1 = 1025%nat
  /\ (ApiClient.make_request None ApiClient.always_unavailable
          "https://eodhd.com/api/eod/AAPL.US" 30 2000).2
     = Raise (Exn "OverflowError" "int too large to convert to float").
Proof. vm_compute. repeat split; reflexivity. Qed.

(** * Properties of the in-process TTL cache *)
Section CacheFacts.

Import Cache.

Context {V : Type}.

Implicit Types (l : list (entry V)) (c : TTLCache V) (key : string).

Lemma find_None key l : find key l = None <-> key ∉ keys l.
Proof.
  induction l as [|[k x] l IH]; simpl.
  - split; [intros _; apply not_elem_of_nil | done].
  - destruct (String.eqb_spec key k) as [->|Hne].
    + split; [done | intros Hx; exfalso; apply Hx; left].
    + rewrite IH, not_elem_of_cons. tauto.
Qed.

Lemma find_Some_elem key l x : find key l = Some x -> (key, x) ∈ l.
Proof.
  induction l as [|[k y] l IH]; simpl; [done|].
  destruct (String.eqb_spec key k) as [->|Hne].
  - intros [= ->]. left.
  - intros H. right. by apply IH.
Qed.

Lemma length_remove key l : (length (remove key l) <= length l)%nat.
Proof.
  induction l as [|[k x] l IH]; simpl; [lia|].
  destruct (String.eqb key k); simpl; lia.
Qed.

Lemma keys_remove key l k : k ∈ keys (remove key l) -> k ∈ keys l.
Proof.
  induction l as [|[k' x] l IH]; simpl; [done|].
  destruct (String.eqb key k'); simpl.
  - intros H. by right.
  - rewrite !elem_of_cons. intros [->|H]; [by left | right; by apply IH].
Qed.

Lemma NoDup_remove key l : NoDup (keys l) -> NoDup (keys (remove key l)).
Proof.
  induction l as [|[k x] l IH]; simpl; [done|].
  rewrite NoDup_cons. intros [Hk Hl].
  destruct (String.eqb key k); simpl; [done|].
  apply NoDup_cons. split; [|by apply IH].
  intros H. apply Hk. by apply keys_remove in H.
Qed.

Lemma remove_absent key l : NoDup (keys l) -> key ∉ keys (remove key l).
Proof.
  induction l as [|[k x] l IH]; simpl; [intros _; apply not_elem_of_nil|].
  rewrite NoDup_cons. intros [Hk Hl].
  destruct (String.eqb_spec key k) as [->|Hne]; simpl; [done|].
  rewrite not_elem_of_cons. split; [done | by apply IH].
Qed.

Lemma find_remove_ne key k l : key <> k -> find key (remove k l) = find key l.
Proof.
  intros Hne. induction l as [|[k' x] l IH]; simpl; [done|].
  destruct (String.eqb_spec k k') as [->|Hk]; simpl.
  - by destruct (String.eqb_spec key k').
  - by rewrite IH.
Qed.

Lemma find_app key l1 l2 :
  find key (l1 ++ l2) = match find key l1 with Some x => Some x | None => find key l2 end.
Proof.
  induction l1 as [|[k x] l1 IH]; simpl; [done|].
  by destruct (String.eqb key k).
Qed.

(** With a capacity that is not negative the eviction loop drops the oldest
    entries in excess and raises nothing. *)
Lemma evict_drop (maxsize : Z) l :
  0 <= maxsize ->
  evict maxsize l = (drop (length l - Z.to_nat maxsize) l, Return ()).
Proof.
  intros Hm. induction l as [|e l IH].
  - cbn [evict]. destruct (Z.ltb_spec maxsize (Z.of_nat (length (@nil (entry V))))) as [H|H];
      [simpl in H; lia | done].
  - cbn [evict]. destruct (maxsize <? Z.of_nat (length (e :: l))) eqn:E.
    + apply Z.ltb_lt in E. rewrite IH. simpl in E.
      replace (length (e :: l) - Z.to_nat maxsize)%nat
        with (S (length l - Z.to_nat maxsize)) by (simpl; lia).
      reflexivity.
    + apply Z.ltb_ge in E. simpl in E.
      replace (length (e :: l) - Z.to_nat maxsize)%nat with 0%nat by (simpl; lia).
      reflexivity.
Qed.


Lemma set_returns c key (value : V) ttl now :
  0 <= _maxsize c ->
  let l := remove key (_cache c)
           ++ [(key, (value, (now + inject_Z (ttl_or_default ttl (_default_ttl c)))%Q))] in
  set c key value ttl now
  = (with_cache c (drop (length l - Z.to_nat (_maxsize c)) l), Return ()).
Proof. intros Hm l. unfold set. fold l. by rewrite evict_drop. Qed.











End CacheFacts.






(** * Properties of the distributed cache *)
Section RedisFacts.

Import RedisCache.

Context {V : Type}.
Variable sha256_hexdigest : string -> string.
Variable json_dumps : V -> option string.
Variable json_loads : string -> option V.

Implicit Types (c : RedisCache V) (key msg : string).

(** [get], [set] and [exists] answer from the fallback dict, under the same
    full key, when the remote call raises. *)
Lemma redis_get_falls_back c key now msg :
  use_remote c = true ->
  get sha256_hexdigest json_loads c key now (Fails msg)
  = _fallback_get c (full_key sha256_hexdigest c key) now.
Proof. intros H. unfold get. by rewrite H. Qed.

Lemma redis_set_falls_back c key (value : V) ttl now msg s :
  use_remote c = true -> json_dumps value = Some s ->
  set sha256_hexdigest json_dumps c key value ttl now (Fails msg)
  = _fallback_set c (full_key sha256_hexdigest c key) value
      (ttl_or_default ttl (default_ttl c)) now.
Proof. intros H Hs. unfold set. by rewrite Hs, H. Qed.

Lemma redis_exists_falls_back c key now msg :
  use_remote c = true ->
  exists_ sha256_hexdigest c key now (Fails msg)
  = bool_decide (is_Some (_fallback_cache c !! full_key sha256_hexdigest c key)).
Proof. intros H. unfold exists_. by rewrite H. Qed.

(** C2: [delete] and [clear_prefix] do not fall back.  A value written
    through a failing [set] sits in the fallback dict; a [delete] (or a
    [clear_prefix]) whose remote call fails as well reports failure and
    leaves the dict as it was, so the next [get] that falls back still
    returns the value. *)
Theorem redis_delete_failure_keeps_fallback c key (value : V) s ttl now msg :
  use_remote c = true -> json_dumps value = Some s ->
  0 < ttl_or_default ttl (default_ttl c) ->
  let c1 := (set sha256_hexdigest json_dumps c key value ttl now (Fails msg)).1 in
  delete sha256_hexdigest c1 key (Fails msg) = (c1, false)
  /\ clear_prefix c1 "" (Fails msg) = (c1, 0)
  /\ _fallback_cache c1 !! full_key sha256_hexdigest c key
     = Some (value, (now + inject_Z (ttl_or_default ttl (default_ttl c)))%Q)
  /\ (get sha256_hexdigest json_loads c1 key now (Fails msg)).2 = Some value.
Proof.
  intros Hr Hs Httl c1.
  assert (Hc1 : c1 = with_fallback c
            (<[full_key sha256_hexdigest c key :=
                 (value, (now + inject_Z (ttl_or_default ttl (default_ttl c)))%Q)]>
               (_fallback_cache c))).
  { unfold c1. by rewrite (redis_set_falls_back _ _ _ _ _ _ s). }
  assert (Hr1 : use_remote c1 = true) by (by rewrite Hc1).
  assert (Hk : full_key sha256_hexdigest c1 key = full_key sha256_hexdigest c key)
    by (by rewrite Hc1).
  assert (Hl : _fallback_cache c1 !! full_key sha256_hexdigest c key
               = Some (value, (now + inject_Z (ttl_or_default ttl (default_ttl c)))%Q)).
  { rewrite Hc1. cbn [_fallback_cache with_fallback]. apply lookup_insert_eq. }
  split; [unfold delete; by rewrite Hr1|].
  split; [unfold clear_prefix; by rewrite Hr1|].
  split; [done|].
  rewrite redis_get_falls_back by done. unfold _fallback_get. rewrite Hk, Hl.
  replace (Qltb now (now + inject_Z (ttl_or_default ttl (default_ttl c)))) with true; [done|].
  symmetry. apply Qltb_lt.
  assert (0 < inject_Z (ttl_or_default ttl (default_ttl c)))%Q.
  { change 0%Q with (inject_Z 0). by rewrite <- Zlt_Qlt. }
  lra.
Qed.

End RedisFacts.

Lemma redis_delete_failure_keeps_fallback_witness :
  RedisCache.use_remote RedisCache.connected_cache = true
  /\ Some "v" = Some "v"
  /\ 0 < RedisCache.ttl_or_default None (RedisCache.default_ttl RedisCache.connected_cache)
  /\ RedisCache.delete (fun k => k)
       (RedisCache.set (fun k => k) Some RedisCache.connected_cache "quote" "v" None 0
          (RedisCache.Fails "down")).1 "quote" (RedisCache.Fails "down")
     = ((RedisCache.set (fun k => k) Some RedisCache.connected_cache "quote" "v" None 0
          (RedisCache.Fails "down")).1, false)
  /\ (RedisCache.get (fun k => k) Some
        (RedisCache.set (fun k => k) Some RedisCache.connected_cache "quote" "v" None 0
           (RedisCache.Fails "down")).1
        "quote" 0 (RedisCache.Fails "down")).2 = Some "v".
Proof.
  assert (H1 : RedisCache.use_remote RedisCache.connected_cache = true) by reflexivity.
  assert (H2 : Some "v" = Some "v") by reflexivity.
  assert (H3 : 0 < RedisCache.ttl_or_default None
                     (RedisCache.default_ttl RedisCache.connected_cache)) by reflexivity.
  split; [exact H1|]. split; [exact H2|]. split; [exact H3|].
  destruct (redis_delete_failure_keeps_fallback (fun k => k) Some Some
              RedisCache.connected_cache "quote" "v" "v" None 0 "down" H1 H2 H3)
    as (Hd & _ & _ & Hg).
  split; [exact Hd | exact Hg].
Defined.

(** * Properties of the token validator *)
Section OAuthFacts.

Import OAuth.

Variable sha256_hexdigest : string -> string.

Implicit Types (v : OAuthValidator) (token : string).

Lemma get_cached_url v token now :
  introspection_url (_get_cached sha256_hexdigest v token now).1 = introspection_url v.
Proof.
  unfold _get_cached. destruct (_cache v !! _) as [[info at_]|]; [|done].
  by destruct (Qltb _ _).
Qed.

Lemma get_cached_ttl v token now :
  cache_ttl (_get_cached sha256_hexdigest v token now).1 = cache_ttl v.
Proof.
  unfold _get_cached. destruct (_cache v !! _) as [[info at_]|]; [|done].
  by destruct (Qltb _ _).
Qed.

(** A hit leaves the validator as it was and the entry in place. *)
Lemma get_cached_hit v token now v' info :
  _get_cached sha256_hexdigest v token now = (v', Some info) ->
  v' = v /\ exists cached_at,
    _cache v !! _cache_key sha256_hexdigest token = Some (info, cached_at)
    /\ (now - cached_at < inject_Z (cache_ttl v))%Q.
Proof.
  unfold _get_cached. destruct (_cache v !! _) as [[info' at_]|] eqn:E; [|done].
  destruct (Qltb _ _) eqn:Et; [|done].
  intros [= <- <-]. split; [done|]. exists at_. split; [done|]. by apply Qltb_lt.
Qed.

(** A repeat validation inside the TTL window answers from the cache. *)
Lemma validate_token_cached v token info cached_at t outcome later :
  _cache v !! _cache_key sha256_hexdigest token = Some (info, cached_at) ->
  (t - cached_at < inject_Z (cache_ttl v))%Q ->
  validate_token sha256_hexdigest v token t outcome later = (v, info, []).
Proof.
  intros Hl Ht. unfold validate_token, _get_cached. rewrite Hl.
  by replace (Qltb (t - cached_at) (inject_Z (cache_ttl v))) with true
    by (symmetry; by apply Qltb_lt).
Qed.

(** C5 (amended): with an introspection endpoint configured, the result of
    [validate_token] is in the cache afterwards under the hashed token,
    whether the token is active or not: either it came from the cache (no
    call was made), or it is what the endpoint's answer maps to, stored with
    the clock of that moment; and any further validation of the token
    within [cache_ttl] seconds of the stored time returns that result,
    calls nothing and changes nothing. *)
Theorem introspected_result_is_cached v token now outcome later :
  introspection_url v <> "" ->
  let r := validate_token sha256_hexdigest v token now outcome later in
  exists cached_at,
    _cache r.1.1 !! _cache_key sha256_hexdigest token = Some (r.1.2, cached_at)
    /\ (r.2 = []
        \/ r.2 = [CallIntrospect (introspection_url v) token]
           /\ cached_at = later /\ r.1.2 = _introspect_token outcome)
    /\ forall t outcome' later',
         (t - cached_at < inject_Z (cache_ttl v))%Q ->
         validate_token sha256_hexdigest r.1.1 token t outcome' later' = (r.1.1, r.1.2, []).
Proof.
  intros Hurl r. unfold r, validate_token.
  destruct (_get_cached sha256_hexdigest v token now) as [v' [info|]] eqn:Hg.
  - destruct (get_cached_hit _ _ _ _ _ Hg) as (-> & cached_at & Hl & Hw).
    exists cached_at. cbn [fst snd]. split; [done|]. split; [by left|].
    intros t outcome' later' Ht. by apply validate_token_cached with cached_at.
  - assert (Hu : introspection_url v' = introspection_url v)
      by (by rewrite <- (get_cached_url v token now), Hg).
    assert (Ht : cache_ttl v' = cache_ttl v)
      by (by rewrite <- (get_cached_ttl v token now), Hg).
    rewrite Hu.
    replace (String.eqb (introspection_url v) "") with false
      by (symmetry; by apply String.eqb_neq).
    cbn [negb fst snd]. exists later.
    assert (Hl : _cache (_set_cached sha256_hexdigest v' token (_introspect_token outcome) later)
                   !! _cache_key sha256_hexdigest token
                 = Some (_introspect_token outcome, later))
      by apply lookup_insert_eq.
    split; [done|]. split; [by right|].
    intros t outcome' later' Hlt. apply validate_token_cached with later; [done|].
    by cbn [cache_ttl _set_cached with_cache]; rewrite Ht.
Qed.

(** Without an endpoint the validator accepts the token and stores nothing. *)
Lemma fallback_result_not_cached v token now outcome later :
  introspection_url v = "" ->
  _cache v !! _cache_key sha256_hexdigest token = None ->
  validate_token sha256_hexdigest v token now outcome later
  = (v, accepted_unverified, []).
Proof.
  intros Hu Hl. unfold validate_token, _get_cached. by rewrite Hl, Hu.
Qed.

End OAuthFacts.

(** C5, as stated, fails: an unconfigured validator (the development
    fallback) leaves its cache empty. *)
Lemma fallback_result_not_cached_example :
  ~ OAuth.result_always_cached (fun s => s) (OAuth.__init__ "" 300) "any_token" 0
      (OAuth.IntrospectionRaises "unused") 0.
Proof. intros [cached_at H]. vm_compute in H. discriminate. Qed.

Lemma introspected_result_is_cached_witness :
  "https://auth.example/introspect" <> ""
  /\ exists cached_at,
       OAuth._cache
         (OAuth.validate_token (fun s => s) (OAuth.__init__ "https://auth.example/introspect" 300)
            "tok" 0 (OAuth.IntrospectionRaises "down") 1).1.1
         !! OAuth._cache_key (fun s => s) "tok" = Some (OAuth.inactive, cached_at).
Proof.
  assert (H : "https://auth.example/introspect" <> "") by discriminate.
  split; [exact H|].
  destruct (introspected_result_is_cached (fun s => s)
              (OAuth.__init__ "https://auth.example/introspect" 300)
              "tok" 0 (OAuth.IntrospectionRaises "down") 1 H) as (cached_at & Hl & _).
  exists cached_at. exact Hl.
Defined.

(** * Properties of the authentication gate *)

(** The cases of [tests/test_auth.py] for the header parser, and the header
    that carries the keyword and white space only. *)
Lemma extract_bearer_token_examples :
  Auth.extract_bearer_token (Some "Bearer abc123") = Some "abc123"
  /\ Auth.extract_bearer_token (Some "bearer xyz789") = Some "xyz789"
  /\ Auth.extract_bearer_token (Some "Bearer   token_with_spaces  ") = Some "token_with_spaces"
  /\ Auth.extract_bearer_token None = None
  /\ Auth.extract_bearer_token (Some "Basic YWJjOjEyMw==") = None
  /\ Auth.extract_bearer_token (Some "Bearer") = None
  /\ Auth.extract_bearer_token (Some "Bearer  ") = Some "".
Proof. vm_compute. repeat split; reflexivity. Qed.

Section AuthFacts.

Import OAuth Auth.

Variable sha256_hexdigest : string -> string.

Implicit Types (m : AuthMiddleware) (w : world) (token transport : string).

(** Over a transport other than stdio a request with a bearer token is
    decided by the validator's answer alone. *)
Lemma authenticate_bearer m header api_token_param transport w token :
  transport <> "stdio" ->
  if_truthy (extract_bearer_token header) = Some token ->
  authenticate sha256_hexdigest m header api_token_param transport w
  = let r := validation sha256_hexdigest m token w in
    (with_validator m r.1.1, bearer_result r.1.2 (clock_check w), r.2).
Proof.
  intros Ht Hb. unfold authenticate, validation.
  replace (String.eqb transport "stdio") with false by (symmetry; by apply String.eqb_neq).
  rewrite Hb.
  destruct (validate_token _ _ _ _ _ _) as [[v info] calls]. reflexivity.
Qed.


(** The three ways lines 183-195 end. *)
Lemma bearer_result_accepts info now :
  truthy (active info) = true -> is_expired info now = Return false ->
  bearer_result info now
  = Return (mkAuthResult true (subject info) (Some "oauth") (scopes info) None None).
Proof. intros Ha He. unfold bearer_result. by rewrite Ha, He. Qed.

Lemma bearer_result_rejects info now :
  truthy (active info) = false \/ is_expired info now = Return true ->
  bearer_result info now
  = Return (mkAuthResult false JNull None [] (Some "invalid_token")
                         (Some "Token is invalid or expired")).
Proof.
  intros H. unfold bearer_result. destruct (truthy (active info)); [|done].
  destruct H as [H|H]; [done | by rewrite H].
Qed.


(** An [expires_at] that is an integer: expired once the clock has passed it. *)
Lemma is_expired_int info now e :
  expires_at info = JInt e ->
  is_expired info now = Return (Qltb (inject_Z e) now).
Proof. intros H. unfold is_expired. by rewrite H. Qed.

(** C4: over a transport other than stdio, when the header carries a bearer
    token and the validator's answer for it is inactive (its [active] is
    not truthy), or has an [expires_at] that the clock has passed (an
    integer below the clock, or any other value for which [is_expired]
    answers [True]), the result is not authenticated and its error is
    [invalid_token]. *)
Theorem inactive_or_expired_token_rejected m header api_token_param transport w token :
  transport <> "stdio" ->
  if_truthy (extract_bearer_token header) = Some token ->
  let info := (validation sha256_hexdigest m token w).1.2 in
  truthy (active info) = false
  \/ (exists e, expires_at info = JInt e /\ (inject_Z e < clock_check w)%Q)
  \/ is_expired info (clock_check w) = Return true ->
  exists r,
    (authenticate sha256_hexdigest m header api_token_param transport w).1.2 = Return r
    /\ authenticated r = false /\ error r = Some "invalid_token" /\ method r = None.
Proof.
  intros Ht Hb info Hbad.
  assert (Hrej : truthy (active info) = false \/ is_expired info (clock_check w) = Return true).
  { destruct Hbad as [H | [(e & He & Hlt) | H]]; [by left | right | by right].
    rewrite (is_expired_int info (clock_check w) e He).
    by replace (Qltb (inject_Z e) (clock_check w)) with true
      by (symmetry; by apply Qltb_lt). }
  rewrite (authenticate_bearer _ _ _ _ _ token) by done. cbn zeta. fold info.
  cbn [fst snd]. rewrite bearer_result_rejects by done.
  eexists. split; [reflexivity|]. by repeat split.
Qed.


End AuthFacts.

(** * Properties of the batch orchestrator *)
Section BatchFacts.

Import Batch.

Variable py_str_item : item -> string.
Variable py_repr : json -> string.

Lemma ok_ids_length rs : length (ok_ids rs) = length (List.filter task_ok rs).
Proof.
  induction rs as [|[msg|identifier data] rs IH]; simpl; [done|done|].
  destruct (is_success data); simpl; by rewrite IH.
Qed.

Lemma ok_failed_length rs :
  (length (List.filter task_ok rs) + length (List.filter task_failed rs))%nat = length rs.
Proof.
  induction rs as [|t rs IH]; simpl; [done|].
  unfold task_failed at 1. destruct (task_ok t); simpl; lia.
Qed.

Lemma ok_ids_elem rs identifier :
  identifier ∈ ok_ids rs <->
  exists data, TaskReturned identifier data ∈ rs /\ is_success data = true.
Proof.
  unfold ok_ids. rewrite list_elem_of_omap. split.
  - intros ([msg|id' data] & Hin & Heq); [done|].
    destruct (is_success data) eqn:E; [|done]. injection Heq as ->. by exists data.
  - intros (data & Hin & Hs). exists (TaskReturned identifier data). by rewrite Hs.
Qed.

(** The second loop, from any state of the two accumulators. *)
Lemma classify_fold rs (m : gmap string json) (errs : list string) :
  let acc := fold_left (classify py_repr) rs (m, errs) in
  length acc.2 = (length errs + length (List.filter task_failed rs))%nat
  /\ (size acc.1 <= size m + length (ok_ids rs))%nat
  /\ (NoDup (ok_ids rs) -> (forall id, id ∈ ok_ids rs -> m !! id = None) ->
      size acc.1 = (size m + length (ok_ids rs))%nat)
  /\ (forall id data, acc.1 !! id = Some data ->
        m !! id = Some data \/ (TaskReturned id data ∈ rs /\ is_success data = true))
  /\ (forall id, is_Some (m !! id) \/ id ∈ ok_ids rs -> is_Some (acc.1 !! id)).
Proof.
  revert m errs. induction rs as [|t rs IH]; intros m errs.
  - simpl. repeat split; try lia; try tauto.
    intros id [H|H]; [done | by apply not_elem_of_nil in H].
  - cbn [fold_left]. destruct t as [msg|identifier data].
    + cbn [classify fst snd].
      destruct (IH m (errs ++ [msg])) as (H1 & H2 & H3 & H4 & H5).
      rewrite length_app in H1. simpl in H1.
      split; [simpl; lia|]. split; [done|]. split; [done|]. split; [|done].
      intros id data Hl. destruct (H4 id data Hl) as [?|[? ?]]; [by left|right].
      split; [by right | done].
    + cbn [classify]. destruct (is_success data) eqn:Es; cbn [fst snd].
      * destruct (IH (<[identifier := data]> m) errs) as (H1 & H2 & H3 & H4 & H5).
        assert (Hids : ok_ids (TaskReturned identifier data :: rs) = identifier :: ok_ids rs)
          by (simpl; by rewrite Es).
        assert (Hfail : List.filter task_failed (TaskReturned identifier data :: rs)
                        = List.filter task_failed rs)
          by (simpl; unfold task_failed at 1; simpl; by rewrite Es).
        rewrite Hids, Hfail. cbn [length].
        pose proof (map_size_insert identifier data m) as Hsz.
        split; [done|]. split.
        { destruct (m !! identifier); simpl in Hsz; lia. }
        split.
        { rewrite NoDup_cons. intros [Hni Hnd] Hfresh.
          rewrite H3; [| done |].
          - rewrite Hsz, (Hfresh identifier) by left. simpl. lia.
          - intros id Hid. rewrite lookup_insert_ne by (intros ->; done).
            apply Hfresh. by right. }
        split.
        { intros id d Hl. destruct (H4 id d Hl) as [Hm|[Hin Hs]].
          - destruct (decide (identifier = id)) as [->|Hne].
            + rewrite lookup_insert_eq in Hm. injection Hm as <-. right. split; [left | done].
            + rewrite lookup_insert_ne in Hm by done. by left.
          - right. split; [by right | done]. }
        intros id Hid. apply H5.
        destruct (decide (identifier = id)) as [->|Hne].
        { left. rewrite lookup_insert_eq. by eexists. }
        destruct Hid as [Hid|Hid].
        -- left. by rewrite lookup_insert_ne.
        -- apply elem_of_cons in Hid as [->|Hid]; [done | by right].
      * destruct (IH m (errs ++ [identifier +:+ ": " +:+ error_msg py_repr data]))
          as (H1 & H2 & H3 & H4 & H5).
        rewrite length_app in H1. simpl in H1.
        assert (Hids : ok_ids (TaskReturned identifier data :: rs) = ok_ids rs)
          by (simpl; by rewrite Es).
        assert (Hfail : List.filter task_failed (TaskReturned identifier data :: rs)
                        = TaskReturned identifier data :: List.filter task_failed rs)
          by (simpl; unfold task_failed at 1; simpl; by rewrite Es).
        rewrite Hids, Hfail. cbn [length].
        split; [lia|]. split; [done|]. split; [done|]. split; [|done].
        intros id d Hl. destruct (H4 id d Hl) as [?|[? ?]]; [by left|right].
        split; [by right | done].
Qed.

(** The tasks carry the identifiers of the items, in order. *)
Lemma build_tasks_ids url_builder items tasks :
  build_tasks py_str_item url_builder items = Return tasks ->
  map snd tasks = map (identifier_of py_str_item) items.
Proof.
  revert tasks. induction items as [|it items IH]; intros tasks; simpl.
  - by intros [= <-].
  - destruct (url_builder it) as [url|e]; [|done].
    destruct (build_tasks _ _ items) as [tasks'|e]; [|done].
    intros [= <-]. simpl. by rewrite (IH tasks').
Qed.

Lemma ok_ids_gather fetch tasks :
  ok_ids (gather fetch tasks) `sublist_of` map snd tasks.
Proof.
  unfold gather. revert fetch. induction tasks as [|[url id] tasks IH]; intros fetch.
  - constructor.
  - rewrite imap_cons. unfold run_task at 1. cbn [fst snd map].
    destruct (fetch 0%nat url) as [data|e]; simpl.
    + destruct (is_success data); [apply sublist_skip | apply sublist_cons];
        exact (IH (fun i => fetch (S i))).
    + apply sublist_cons. exact (IH (fun i => fetch (S i))).
Qed.

(** C8 (amended): when the URL builder returns for every item, [total] is
    the number of submitted items; every task that raised, or whose payload
    is empty or a dict with a truthy ["error"] entry, adds exactly one entry
    to the error list; every entry of the successes map is the payload of a
    task, non-empty and not a dict with a truthy ["error"] entry, and every
    such task has its identifier in the map; [count + len(errors)] is at
    most [total], and equals it when the items' identifiers are pairwise
    distinct. *)
Theorem batch_accounting items url_builder fetch r :
  process py_str_item py_repr items url_builder fetch = Return r ->
  exists tasks,
    build_tasks py_str_item url_builder items = Return tasks /\
    let rs := gather fetch tasks in
    total r = length items /\ length rs = length items
    /\ count r = size (results r)
    /\ error_count r = length (List.filter task_failed rs)
    /\ (forall id data, results r !! id = Some data ->
          is_success data = true /\ TaskReturned id data ∈ rs)
    /\ (forall id data, TaskReturned id data ∈ rs -> is_success data = true ->
          is_Some (results r !! id))
    /\ (count r + error_count r <= total r)%nat
    /\ (NoDup (map (identifier_of py_str_item) items) ->
        (count r + error_count r = total r)%nat).
Proof.
  unfold process. destruct (build_tasks _ _ items) as [tasks|e] eqn:Hb; [|done].
  intros [= <-]. exists tasks. split; [done|]. cbn zeta.
  set (rs := gather fetch tasks).
  destruct (classify_fold rs ∅ []) as (H1 & H2 & H3 & H4 & H5).
  set (acc := fold_left (classify py_repr) rs (∅, [])) in *.
  assert (Hlen : length rs = length items).
  { unfold rs, gather. rewrite length_imap.
    rewrite <- (length_map snd tasks), (build_tasks_ids _ _ _ Hb). apply length_map. }
  assert (Herr : error_count (summarize items acc) = length acc.2).
  { unfold error_count, summarize. cbn [errors]. by destruct acc.2. }
  pose proof (ok_failed_length rs) as Hsum. rewrite <- ok_ids_length in Hsum.
  rewrite map_size_empty in H2, H3. cbn [length] in H1.
  rewrite Herr. unfold summarize at 1 2 3 4 5 6 7. cbn [total count results].
  split; [done|]. split; [done|]. split; [done|]. split; [lia|]. split.
  { intros id data Hl. destruct (H4 id data Hl) as [Hm|[Hin Hs]]; [|done].
    by rewrite lookup_empty in Hm. }
  split.
  { intros id data Hin Hs. apply H5. right. apply ok_ids_elem. by exists data. }
  split; [lia|].
  intros Hnd. unfold summarize; cbn [count total]. rewrite H3; [lia | |].
  - apply sublist_NoDup with (map snd tasks); [|apply ok_ids_gather].
    by rewrite (build_tasks_ids _ _ _ Hb).
  - intros id _. apply lookup_empty.
Qed.

End BatchFacts.

(** C8, as stated, fails: two items with the same identifier, both fetched
    with success, share one entry of the successes map, so that
    [count = 1], no error is recorded and [total = 2]. *)
Lemma duplicate_identifier_counted_once :
  ~ Batch.accounts_for_every_item Batch.demo_str Batch.demo_repr
      [[("id", "AAPL.US")]; [("id", "AAPL.US")]]
      (fun _ => Return "https://eodhd.com/api/real-time/AAPL.US?fmt=json")
      (fun _ _ => Return (JDict [("close", JInt 185)])).
Proof.
  intros H. pose proof (H _ eq_refl) as H'. vm_compute in H'. discriminate.
Qed.

Lemma batch_accounting_witness :
  Batch.process Batch.demo_str Batch.demo_repr Batch.three_items Batch.demo_builder
    Batch.second_raises = Return Batch.three_result
  /\ NoDup (map (Batch.identifier_of Batch.demo_str) Batch.three_items)
  /\ Batch.count Batch.three_result = 2%nat
  /\ Batch.error_count Batch.three_result = 1%nat
  /\ (Batch.count Batch.three_result + Batch.error_count Batch.three_result)%nat
     = Batch.total Batch.three_result.
Proof.
  assert (H : Batch.process Batch.demo_str Batch.demo_repr Batch.three_items
                Batch.demo_builder Batch.second_raises = Return Batch.three_result)
    by reflexivity.
  assert (Hnd : NoDup (map (Batch.identifier_of Batch.demo_str) Batch.three_items)).
  { apply (bool_decide_unpack _). vm_compute. exact I. }
  split; [exact H|]. split; [exact Hnd|].
  split; [reflexivity|]. split; [reflexivity|].
  destruct (batch_accounting Batch.demo_str Batch.demo_repr _ _ _ _ H)
    as (tasks & _ & _ & _ & _ & _ & _ & _ & _ & Heq).
  exact (Heq Hnd).
Defined.

Lemma inactive_or_expired_token_rejected_witness :
  "http" <> "stdio"
  /\ Auth.if_truthy (Auth.extract_bearer_token (Some "Bearer abc123")) = Some "abc123"
  /\ (exists e,
        OAuth.expires_at
          (Auth.validation (fun s => s) Auth.demo_middleware "abc123"
             Auth.expired_world).1.2 = JInt e
        /\ (inject_Z e < Auth.clock_check Auth.expired_world)%Q)
  /\ exists r,
       (Auth.authenticate (fun s => s) Auth.demo_middleware (Some "Bearer abc123")
          (Some "legacy-key") "http" Auth.expired_world).1.2 = Return r
       /\ Auth.authenticated r = false /\ Auth.error r = Some "invalid_token".
Proof.
  assert (H1 : "http" <> "stdio") by discriminate.
  assert (H2 : Auth.if_truthy (Auth.extract_bearer_token (Some "Bearer abc123"))
               = Some "abc123") by reflexivity.
  assert (H3 : exists e,
            OAuth.expires_at
              (Auth.validation (fun s => s) Auth.demo_middleware "abc123"
                 Auth.expired_world).1.2 = JInt e
            /\ (inject_Z e < Auth.clock_check Auth.expired_world)%Q).
  { exists 100. split; [reflexivity|]. vm_compute. reflexivity. }
  split; [exact H1|]. split; [exact H2|]. split; [exact H3|].
  destruct (inactive_or_expired_token_rejected (fun s => s) Auth.demo_middleware
              (Some "Bearer abc123") (Some "legacy-key") "http"
              Auth.expired_world "abc123" H1 H2 (or_intror (or_introl H3)))
    as (r & Hr & Ha & He & _).
  exists r. split; [exact Hr|]. split; [exact Ha | exact He].
Defined.


(** * Further properties of the retrying request engine *)
Section ApiClientMore.

Import ApiClient Backoff.

Lemma prefix_refl_app (n b : string) : String.prefix n (n +:+ b) = true.
Proof.
  induction n as [|a n IH]; simpl; [by destruct b|].
  destruct (ascii_dec a a); [done | congruence].
Qed.

Lemma contains_prefix (n h : string) : String.prefix n h = true -> contains n h = true.
Proof. intros H. destruct h; cbn [contains]; by rewrite H. Qed.

Lemma contains_self_app (n b : string) : contains n (n +:+ b) = true.
Proof. apply contains_prefix, prefix_refl_app. Qed.

Lemma contains_app_r (n a b : string) : contains n b = true -> contains n (a +:+ b) = true.
Proof.
  intros H. induction a as [|c a IH]; simpl; [done|].
  rewrite IH. apply orb_true_r.
Qed.

Lemma add_token_has_token key url : contains "api_token=" (add_token key url) = true.
Proof.
  unfold add_token. destruct (contains "api_token=" url) eqn:E; [done|].
  apply contains_app_r, contains_app_r, contains_self_app.
Qed.

Lemma attempts_urls env url timeout retries todo attempt last :
  Forall (is_attempt_of url) (attempts env url timeout retries todo attempt last).1.
Proof.
  revert attempt last. induction todo as [|todo IH]; intros attempt last.
  - constructor.
  - assert (Hb : forall msg, Forall (is_attempt_of url)
        (backoff retries attempt (attempts env url timeout retries todo (S attempt) msg)).1).
    { intros msg. unfold backoff. destruct (_ <? _); [|apply IH].
      destruct (_calculate_retry_delay attempt); [|constructor].
      unfold emit; cbn [fst]. apply Forall_app. split; [by repeat constructor | apply IH]. }
    cbn [attempts]. unfold emit at 1; cbn [fst]. apply Forall_app.
    split; [by repeat constructor|].
    destruct (env attempt) as [r|msg|msg|msg]; try apply Hb; [|constructor].
    destruct (status_code r =? 429).
    + destruct (retry_after_seconds _) as [n|e]; [|constructor].
      destruct (asyncio_sleep n) as [d|e]; [|constructor].
      unfold emit; cbn [fst]. apply Forall_app. split; [by repeat constructor | apply IH].
    + destruct (is_success r); [constructor|].
      destruct (_ && _); [constructor | apply Hb].
Qed.

(** X1: every request that [make_request] or [make_post_request] issues goes
    to a URL that carries an [api_token=] parameter, and a URL that carries
    one already is left alone. *)
Theorem requests_carry_api_token key env outcome url timeout retries :
  Forall (fun e => match e with
                   | EvAttempt _ u _ | EvPost u _ => contains "api_token=" u = true
                   | EvSleep _ => True
                   end)
         ((make_request key env url timeout retries).1
          ++ (make_post_request key outcome url timeout).1)
  /\ add_token key (add_token key url) = add_token key url
  /\ (forall k', contains "api_token=" url = true -> add_token k' url = url).
Proof.
  pose proof (add_token_has_token key url) as Ht.
  split; [|split].
  - apply Forall_app. split.
    + eapply Forall_impl; [apply attempts_urls|].
      intros [a u t|d|u t]; simpl; try done; by intros ->.
    + unfold make_post_request, emit; simpl. by repeat constructor.
  - unfold add_token at 1. by rewrite Ht.
  - intros k' H. unfold add_token. by rewrite H.
Qed.

Lemma retry_delay_computed (i : nat) :
  (i < 1024)%nat -> _calculate_retry_delay i = Return (retry_delay i).
Proof. intros H. unfold _calculate_retry_delay. by rewrite float_of_pow2. Qed.

(** X2: below the overflow the back-off delays lie between 1 and 10 seconds
    and never decrease from one attempt to the next. *)
Theorem retry_delay_bounded_monotone (i j : nat) :
  (i <= j)%nat -> (j < 1024)%nat ->
  _calculate_retry_delay i = Return (retry_delay i)
  /\ _calculate_retry_delay j = Return (retry_delay j)
  /\ (1 <= retry_delay i)%Q /\ (retry_delay i <= retry_delay j)%Q
  /\ (retry_delay j <= 10)%Q.
Proof.
  intros Hij Hj.
  split; [apply retry_delay_computed; lia|]. split; [by apply retry_delay_computed|].
  assert (Hp : forall n : nat, (1 <= inject_Z (2 ^ Z.of_nat n))%Q).
  { intros n. change 1%Q with (inject_Z 1). rewrite <- Zle_Qle.
    pose proof (Z.pow_pos_nonneg 2 (Z.of_nat n)). lia. }
  assert (Hm : (inject_Z (2 ^ Z.of_nat i) <= inject_Z (2 ^ Z.of_nat j))%Q).
  { rewrite <- Zle_Qle. apply Z.pow_le_mono_r; lia. }
  pose proof (Hp i) as Hi1. pose proof (Hp j) as Hj1.
  unfold retry_delay, py_min, RETRY_DELAY_BASE, RETRY_DELAY_MAX.
  destruct (Qltb 10 (1 * inject_Z (2 ^ Z.of_nat i))) eqn:Ei;
    destruct (Qltb 10 (1 * inject_Z (2 ^ Z.of_nat j))) eqn:Ej;
    try apply Qltb_lt in Ei; try apply Qltb_ge in Ei;
    try apply Qltb_lt in Ej; try apply Qltb_ge in Ej;
    repeat split; lra.
Qed.

Lemma rounds_S url timeout pause attempt k :
  rounds url timeout pause attempt (S k)
  = [EvAttempt attempt url timeout; EvSleep (pause attempt)]
    ++ rounds url timeout pause (S attempt) k.
Proof. reflexivity. Qed.

(** [k] retry-eligible failures in a row, each followed by its back-off. *)
Lemma attempts_failures env url timeout retries msg k :
  forall todo attempt last,
  (forall i, (attempt <= i < attempt + k)%nat -> transient (env i) (msg i)) ->
  Z.of_nat (attempt + k) <= retries -> (attempt + k <= 1024)%nat ->
  attempts env url timeout retries (k + todo) attempt last
  = emit (rounds url timeout retry_delay attempt k)
         (attempts env url timeout retries todo (attempt + k)
                   (last_after msg attempt k last)).
Proof.
  induction k as [|k IH]; intros todo attempt last Ht Hr Ho.
  - cbn [last_after Nat.add]. rewrite Nat.add_0_r. by destruct (attempts _ _ _ _ _ _ _).
  - destruct (transient_error_retried env url timeout retries (k + todo) attempt last
                (env attempt) (msg attempt) eq_refl) as (d & Hd & _ & Heq);
      [apply Ht; lia | lia | lia |].
    rewrite retry_delay_computed in Hd by lia. injection Hd as <-.
    change (S k + todo)%nat with (S (k + todo)). rewrite Heq.
    rewrite (IH todo (S attempt) (Some (msg attempt))); [| intros i Hi; apply Ht | |]; try lia.
    rewrite emit_app, rounds_S.
    replace (S attempt + k)%nat with (attempt + S k)%nat by lia.
    assert (Hlast : last_after msg (S attempt) k (Some (msg attempt))
                    = last_after msg attempt (S k) last).
    { destruct k; cbn [last_after]; [by rewrite Nat.add_0_r|].
      by replace (S attempt + k)%nat with (attempt + S k)%nat by lia. }
    by rewrite Hlast.
Qed.

(** A retry-eligible failure on the last attempt: no sleep follows. *)
Lemma last_attempt_fails env url timeout retries todo attempt last msg :
  transient (env attempt) msg -> retries <= Z.of_nat attempt ->
  attempts env url timeout retries (S todo) attempt last
  = emit [EvAttempt attempt url timeout]
         (attempts env url timeout retries todo (S attempt) (Some msg)).
Proof.
  intros Ht Hr.
  assert (Hb : forall k, backoff retries attempt k = k).
  { intros k. unfold backoff.
    by replace (Z.of_nat attempt <? retries) with false by (symmetry; apply Z.ltb_ge; lia). }
  cbn [attempts]. remember (env attempt) as o eqn:He. clear He.
  destruct Ht as [-> | [-> | (r & -> & -> & Hs)]]; rewrite ?Hb; try done.
  replace (status_code r =? 429) with false by (symmetry; apply Z.eqb_neq; lia).
  replace (is_success r) with false
    by (unfold is_success; symmetry; apply andb_false_iff; right; apply Z.ltb_ge; lia).
  replace (status_code r <? 500) with false by (symmetry; apply Z.ltb_ge; lia).
  by rewrite andb_false_r.
Qed.

(** X3: when the first [k] answers are retry-eligible failures and the next
    one is a 2xx ([k] within the retry budget), the call makes exactly
    [k + 1] requests, sleeps the back-off delay after each failure, and
    returns the decoded payload of the 2xx answer. *)
Theorem success_after_failures key env url timeout retries msg k r :
  (forall i, (i < k)%nat -> transient (env i) (msg i)) ->
  env k = Responded r -> is_success r = true ->
  Z.of_nat k <= retries -> (k <= 1024)%nat ->
  make_request key env url timeout retries
  = (rounds (add_token key url) timeout retry_delay 0 k
       ++ [EvAttempt k (add_token key url) timeout],
     Return (parse_payload r)).
Proof.
  intros Ht He Hs Hr Ho. unfold make_request.
  replace (Z.to_nat (retries + 1)) with (k + S (Z.to_nat retries - k))%nat by lia.
  rewrite (attempts_failures _ _ _ _ msg); [| intros i Hi; apply Ht; lia | lia | lia].
  cbn [Nat.add attempts]. rewrite He.
  assert (H429 : (status_code r =? 429) = false).
  { unfold is_success in Hs. apply andb_true_iff in Hs as [_ Hs].
    apply Z.ltb_lt in Hs. apply Z.eqb_neq. lia. }
  rewrite H429, Hs. unfold emit; cbn [fst snd]. by rewrite app_nil_r.
Qed.

(** X4: when every attempt ends in a retry-eligible failure, the call makes
    [retries + 1] requests, sleeps the back-off delay after each of them but
    the last, and returns the message of the last failure as a structured
    error. *)
Theorem exhausted_retries_return_last_error key env url timeout msg n :
  (forall i, (i <= n)%nat -> transient (env i) (msg i)) -> (n <= 1024)%nat ->
  make_request key env url timeout (Z.of_nat n)
  = (rounds (add_token key url) timeout retry_delay 0 n
       ++ [EvAttempt n (add_token key url) timeout],
     Return (error_dict (msg n))).
Proof.
  intros Ht Ho. unfold make_request.
  replace (Z.to_nat (Z.of_nat n + 1)) with (n + 1)%nat by lia.
  rewrite (attempts_failures _ _ _ _ msg); [| intros i Hi; apply Ht; lia | lia | lia].
  cbn [Nat.add]. rewrite (last_attempt_fails _ _ _ _ _ _ _ (msg n)); [| apply Ht; lia | lia].
  cbn [attempts]. unfold emit; cbn [fst snd default]. by rewrite app_nil_r.
Qed.

(** 429 answers in a row: each one is followed by the sleep it asks for. *)
Lemma attempts_limited env url timeout retries secs k :
  forall todo attempt last,
  (forall i, (attempt <= i < attempt + k)%nat ->
     limited (env i) (secs i) /\ secs i < SLEEP_OVERFLOW) ->
  attempts env url timeout retries (k + todo) attempt last
  = emit (rounds url timeout (fun i => inject_Z (secs i)) attempt k)
         (attempts env url timeout retries todo (attempt + k) last).
Proof.
  induction k as [|k IH]; intros todo attempt last Hl.
  - rewrite Nat.add_0_r. by destruct (attempts _ _ _ _ _ _ _).
  - destruct (Hl attempt ltac:(lia)) as ((r & He & Hs & Hn) & Hlt).
    change (S k + todo)%nat with (S (k + todo)).
    rewrite (rate_limited_step _ _ _ _ _ _ _ r (secs attempt)) by done.
    rewrite (IH todo (S attempt) last) by (intros i Hi; apply Hl; lia).
    rewrite !emit_app, rounds_S.
    by replace (S attempt + k)%nat with (attempt + S k)%nat by lia.
Qed.

(** X5: when every attempt is answered 429 with a [Retry-After] that
    [asyncio.sleep] accepts (absent, or an integer below the range of a
    double), the call makes [retries + 1] requests, sleeps what each answer
    asks for (also after the last one), and returns the error "Unknown
    error after retries": no failure was recorded.  A [Retry-After] beyond
    that range on attempt [j], after such answers, ends the call there with
    the message of the [OverflowError]. *)
Theorem all_rate_limited_gives_unknown_error key env url timeout secs n :
  (forall i, (i <= n)%nat -> limited (env i) (secs i)) ->
  ((forall i, (i <= n)%nat -> secs i < SLEEP_OVERFLOW) ->
   make_request key env url timeout (Z.of_nat n)
   = (rounds (add_token key url) timeout (fun i => inject_Z (secs i)) 0 (S n),
      Return (error_dict "Unknown error after retries")))
  /\ (forall j, (j <= n)%nat ->
       (forall i, (i < j)%nat -> secs i < SLEEP_OVERFLOW) -> SLEEP_OVERFLOW <= secs j ->
       make_request key env url timeout (Z.of_nat n)
       = (rounds (add_token key url) timeout (fun i => inject_Z (secs i)) 0 j
            ++ [EvAttempt j (add_token key url) timeout],
          Return (error_dict "int too large to convert to float"))).
Proof.
  intros Hl. split.
  - intros Hlt. unfold make_request.
    replace (Z.to_nat (Z.of_nat n + 1)) with (S n + 0)%nat by lia.
    rewrite (attempts_limited _ _ _ _ secs)
      by (intros i Hi; split; [apply Hl | apply Hlt]; lia).
    cbn [attempts]. unfold emit; cbn [fst snd default]. by rewrite app_nil_r.
  - intros j Hj Hlt Hge. unfold make_request.
    replace (Z.to_nat (Z.of_nat n + 1)) with (j + S (n - j))%nat by lia.
    rewrite (attempts_limited _ _ _ _ secs)
      by (intros i Hi; split; [apply Hl | apply Hlt]; lia).
    destruct (Hl j Hj) as (r & He & Hs & Hn).
    cbn [Nat.add]. rewrite (rate_limited_overflow _ _ _ _ _ _ _ r (secs j)) by done.
    reflexivity.
Qed.

End ApiClientMore.

Lemma retry_delay_bounded_monotone_witness :
  (2 <= 7)%nat /\ (7 < 1024)%nat
  /\ (1 <= Backoff.retry_delay 2)%Q
  /\ (Backoff.retry_delay 2 <= Backoff.retry_delay 7)%Q
  /\ (Backoff.retry_delay 7 <= 10)%Q.
Proof.
  assert (H1 : (2 <= 7)%nat) by lia.
  assert (H2 : (7 < 1024)%nat) by lia.
  split; [exact H1|]. split; [exact H2|].
  exact (proj2 (proj2 (retry_delay_bounded_monotone 2 7 H1 H2))).
Defined.

Lemma success_after_failures_witness :
  (forall i, (i < 2)%nat ->
     ApiClient.transient (Backoff.fail_twice i) "status 503")
  /\ ApiClient.is_success Backoff.quote_response = true
  /\ (ApiClient.make_request None Backoff.fail_twice "u?api_token=k" 30 3).2
     = Return (JDict [("close", JInt 185)])
  /\ ApiClient.sleeps (ApiClient.make_request None Backoff.fail_twice "u?api_token=k" 30 3).1
     = [1; 2]%Q.
Proof.
  assert (H1 : forall i, (i < 2)%nat ->
            ApiClient.transient (Backoff.fail_twice i) ((fun _ => "status 503") i)).
  { intros [|[|i]] Hi; [| |lia]; right; right; eexists;
      (split; [reflexivity|]); (split; [reflexivity|]); simpl; lia. }
  assert (H2 : Backoff.fail_twice 2 = ApiClient.Responded Backoff.quote_response)
    by reflexivity.
  assert (H3 : ApiClient.is_success Backoff.quote_response = true) by reflexivity.
  split; [exact H1|]. split; [exact H3|].
  rewrite (success_after_failures None Backoff.fail_twice "u?api_token=k" 30 3
             (fun _ => "status 503") 2 Backoff.quote_response H1 H2 H3
             ltac:(lia) ltac:(lia)).
  split; reflexivity.
Defined.

Lemma exhausted_retries_return_last_error_witness :
  (forall i, (i <= 3)%nat -> ApiClient.transient (ApiClient.always_timeout i) "timed out")
  /\ (3 <= 1024)%nat
  /\ (ApiClient.make_request None ApiClient.always_timeout "u" 30 3).2
     = Return (ApiClient.error_dict "timed out")
  /\ ApiClient.sleeps (ApiClient.make_request None ApiClient.always_timeout "u" 30 3).1
     = [1; 2; 4]%Q.
Proof.
  assert (H1 : forall i, (i <= 3)%nat ->
            ApiClient.transient (ApiClient.always_timeout i) ((fun _ => "timed out") i))
    by (intros i _; by left).
  assert (H2 : (3 <= 1024)%nat) by lia.
  split; [exact H1|]. split; [exact H2|].
  change 3 with (Z.of_nat 3).
  rewrite (exhausted_retries_return_last_error None ApiClient.always_timeout "u" 30
             (fun _ => "timed out") 3 H1 H2).
  split; reflexivity.
Defined.

Lemma all_rate_limited_gives_unknown_error_witness :
  (forall i, (i <= 1)%nat -> Backoff.limited (Backoff.always_limited i) 60)
  /\ (forall i : nat, (i <= 1)%nat -> 60 < ApiClient.SLEEP_OVERFLOW)
  /\ ApiClient.make_request None Backoff.always_limited "u?api_token=k" 30 1
     = ([ApiClient.EvAttempt 0 "u?api_token=k" 30; ApiClient.EvSleep 60;
         ApiClient.EvAttempt 1 "u?api_token=k" 30; ApiClient.EvSleep 60],
        Return (ApiClient.error_dict "Unknown error after retries")).
Proof.
  assert (H1 : forall i, (i <= 1)%nat ->
            Backoff.limited (Backoff.always_limited i) ((fun _ => 60) i)).
  { intros i _. eexists. split; [reflexivity|]. split; reflexivity. }
  assert (H2 : forall i : nat, (i <= 1)%nat -> (fun _ : nat => 60) i < ApiClient.SLEEP_OVERFLOW)
    by (intros i _; vm_compute; reflexivity).
  split; [exact H1|]. split; [exact H2|].
  change 1 with (Z.of_nat 1) at 1.
  exact (proj1 (all_rate_limited_gives_unknown_error None Backoff.always_limited
                  "u?api_token=k" 30 (fun _ => 60) 1 H1) H2).
Defined.

(** * Properties of the pacing gate *)
Section RateLimiterFacts.

Import RateLimiter.

Lemma wait_needed_Some s now d :
  wait_needed s now = Some d ->
  (now - _last_request_time s < _rate_limit_delay s)%Q
  /\ d = (_rate_limit_delay s - (now - _last_request_time s))%Q.
Proof.
  unfold wait_needed. destruct (Qltb _ _) eqn:E; [|done].
  intros [= <-]. split; [by apply Qltb_lt | done].
Qed.



(** X29: [_rate_limit] does not space calls that overlap.  Two callers that
    enter while the last request is too recent, the second before the first
    has woken, compute their sleeps from the same [_last_request_time]:
    both sleeps end at the same instant, [_rate_limit_delay] after that
    stamp, neither entry moves the stamp, and each caller returns when it
    wakes, whatever the clock the other one stamped. *)
Theorem overlapping_calls_wake_together (g : limiter) (a b : nat)
    (now_a now_b clock_a clock_b da db woke_a woke_b : Q) :
  a <> b ->
  wait_needed (globals g) now_a = Some da ->
  wait_needed (globals g) now_b = Some db ->
  let g2 := run g [Call a now_a clock_a; Call b now_b clock_b] in
  let g4 := run g2 [Wake a woke_a; Wake b woke_b] in
  globals g2 = globals g /\ released g2 = released g
  /\ sleeping g2 !! a = Some da /\ sleeping g2 !! b = Some db
  /\ (now_a + da == _last_request_time (globals g) + _rate_limit_delay (globals g))%Q
  /\ (now_b + db == _last_request_time (globals g) + _rate_limit_delay (globals g))%Q
  /\ released g4 = released g ++ [(a, woke_a); (b, woke_b)]
  /\ _last_request_time (globals g4) = woke_b.
Proof.
  intros Hab Ha Hb g2 g4.
  destruct (wait_needed_Some _ _ _ Ha) as [_ Hda].
  destruct (wait_needed_Some _ _ _ Hb) as [_ Hdb].
  assert (Hg2 : g2 = mkLimiter (globals g) (<[b := db]> (<[a := da]> (sleeping g))) (released g)).
  { unfold g2, run. cbn [fold_left _rate_limit]. rewrite Ha. cbn [globals]. by rewrite Hb. }
  assert (Hla : sleeping g2 !! a = Some da).
  { rewrite Hg2. cbn [sleeping]. rewrite lookup_insert_ne by done. apply lookup_insert_eq. }
  assert (Hlb : sleeping g2 !! b = Some db).
  { rewrite Hg2. cbn [sleeping]. apply lookup_insert_eq. }
  split; [by rewrite Hg2|]. split; [by rewrite Hg2|].
  split; [done|]. split; [done|].
  split; [rewrite Hda; lra|]. split; [rewrite Hdb; lra|].
  unfold g4, run. cbn [fold_left _rate_limit]. rewrite Hla.
  cbn [sleeping]. rewrite lookup_delete_ne by done. rewrite Hlb.
  cbn [released globals stamp _last_request_time].
  split; [|done]. rewrite Hg2. cbn [released]. by rewrite <- app_assoc.
Qed.

End RateLimiterFacts.


Lemma overlapping_calls_wake_together_witness :
  0%nat <> 1%nat
  /\ RateLimiter.wait_needed (RateLimiter.globals RateLimiter.idle_limiter) 5 = Some (2 - (5 - 4))%Q
  /\ RateLimiter.wait_needed (RateLimiter.globals RateLimiter.idle_limiter) (11 # 2)
     = Some (2 - ((11 # 2) - 4))%Q
  /\ RateLimiter.released
       (RateLimiter.run
          (RateLimiter.run RateLimiter.idle_limiter
             [RateLimiter.Call 0 5 5; RateLimiter.Call 1 (11 # 2) (11 # 2)])
          [RateLimiter.Wake 0 6; RateLimiter.Wake 1 6])
     = RateLimiter.released RateLimiter.idle_limiter ++ [(0%nat, 6%Q); (1%nat, 6%Q)].
Proof.
  assert (H0 : 0%nat <> 1%nat) by discriminate.
  assert (H1 : RateLimiter.wait_needed (RateLimiter.globals RateLimiter.idle_limiter) 5
               = Some (2 - (5 - 4))%Q) by reflexivity.
  assert (H2 : RateLimiter.wait_needed (RateLimiter.globals RateLimiter.idle_limiter) (11 # 2)
               = Some (2 - ((11 # 2) - 4))%Q) by reflexivity.
  split; [exact H0|]. split; [exact H1|]. split; [exact H2|].
  exact (proj1 (proj2 (proj2 (proj2 (proj2 (proj2 (proj2
           (overlapping_calls_wake_together RateLimiter.idle_limiter 0 1 5 (11 # 2) 5 (11 # 2)
              _ _ 6 6 H0 H1 H2)))))))).
Defined.

(** * Further properties of the in-process TTL cache *)
Section CacheMore.

Import Cache CacheUse.

Context {V : Type}.

Implicit Types (l : list (entry V)) (c : TTLCache V) (key : string).

Lemma remove_absent_id key l : key ∉ keys l -> remove key l = l.
Proof.
  induction l as [|[k x] l IH]; simpl; [done|].
  rewrite not_elem_of_cons. intros [Hne Hl].
  destruct (String.eqb_spec key k); [done|]. by rewrite IH.
Qed.

Lemma length_remove_present key l x :
  find key l = Some x -> S (length (remove key l)) = length l.
Proof.
  induction l as [|[k y] l IH]; simpl; [done|].
  destruct (String.eqb key k); simpl; [done|]. intros H. by rewrite IH.
Qed.

Lemma find_elem key l x : NoDup (keys l) -> (key, x) ∈ l -> find key l = Some x.
Proof.
  induction l as [|[k y] l IH]; simpl; [intros _ H; by apply not_elem_of_nil in H|].
  rewrite NoDup_cons. intros [Hk Hnd] Hin.
  apply elem_of_cons in Hin as [[= -> ->]|Hin].
  - by rewrite String.eqb_refl.
  - destruct (String.eqb_spec key k) as [->|Hne]; [|by apply IH].
    exfalso. apply Hk. unfold keys. apply list_elem_of_fmap. by exists (k, x).
Qed.

Lemma find_filter key l (P : entry V -> bool) :
  NoDup (keys l) ->
  find key (List.filter P l)
  = match find key l with
    | Some x => if P (key, x) then Some x else None
    | None => None
    end.
Proof.
  induction l as [|[k y] l IH]; simpl; [done|].
  rewrite NoDup_cons. intros [Hk Hnd].
  destruct (String.eqb_spec key k) as [->|Hne].
  - destruct (P (k, y)) eqn:EP; simpl.
    + by rewrite String.eqb_refl.
    + rewrite IH by done. apply find_None in Hk. by rewrite Hk.
  - destruct (P (k, y)); simpl; [|by apply IH].
    destruct (String.eqb_spec key k); [done | by apply IH].
Qed.

Lemma remove_as_filter key l :
  NoDup (keys l) -> remove key l = List.filter (fun e => negb (String.eqb key e.1)) l.
Proof.
  induction l as [|[k y] l IH]; simpl; [done|].
  rewrite NoDup_cons. intros [Hk Hnd].
  destruct (String.eqb_spec key k) as [->|Hne]; simpl.
  - rewrite <- IH by done. by rewrite remove_absent_id.
  - by rewrite IH.
Qed.

Lemma NoDup_keys_filter l (P : entry V -> bool) :
  NoDup (keys l) -> NoDup (keys (List.filter P l)).
Proof.
  induction l as [|e l IH]; simpl; [done|].
  rewrite NoDup_cons. intros [Hk Hnd].
  destruct (P e); simpl; [|by apply IH].
  apply NoDup_cons. split; [|by apply IH].
  intros Hin. apply Hk. unfold keys in *.
  apply list_elem_of_fmap in Hin as (e' & -> & Hin).
  apply list_elem_of_fmap. exists e'. split; [done|].
  apply list_elem_of_In, List.filter_In in Hin as [Hin _]. by apply list_elem_of_In.
Qed.

Lemma fold_remove_as_filter (ks : list (entry V)) l :
  NoDup (keys l) ->
  fold_left (fun l e => remove e.1 l) ks l
  = List.filter (fun e => forallb (fun e' => negb (String.eqb e'.1 e.1)) ks) l.
Proof.
  revert l. induction ks as [|e ks IH]; intros l Hnd; simpl.
  - induction l as [|x l IHl]; simpl; [done|]. rewrite <- IHl; [done|].
    by apply NoDup_cons in Hnd as [_ ?].
  - rewrite IH by (by apply NoDup_remove). rewrite remove_as_filter by done.
    clear. induction l as [|x l IHl]; simpl; [done|].
    destruct (negb (String.eqb e.1 x.1)); simpl; by rewrite IHl.
Qed.

(** X7: [cleanup] removes exactly the entries whose expiry has passed, keeps
    the others in their order, and returns the number of entries removed;
    an entry that has not expired is still retrievable afterwards. *)
Theorem cleanup_removes_exactly_expired c now :
  cache_ok c ->
  _cache (cleanup c now).1 = List.filter (fun e => negb (is_expired now e)) (_cache c)
  /\ (cleanup c now).2 = Z.of_nat (length (_cache c)) - Z.of_nat (length (_cache (cleanup c now).1))
  /\ (forall key v expiry,
        find key (_cache c) = Some (v, expiry) -> (now <= expiry)%Q ->
        (get (cleanup c now).1 key now).2 = Some v)
  /\ (forall key v expiry,
        find key (_cache c) = Some (v, expiry) -> (expiry < now)%Q ->
        find key (_cache (cleanup c now).1) = None).
Proof.
  intros [Hnd Hlen].
  assert (Hc : _cache (cleanup c now).1
               = List.filter (fun e => negb (is_expired now e)) (_cache c)).
  { unfold cleanup. cbn [fst with_cache _cache].
    rewrite fold_remove_as_filter by done.
    apply List.filter_ext_in. intros e He. apply list_elem_of_In in He.
    destruct (is_expired now e) eqn:Ee; simpl.
    - apply not_true_iff_false. intros Hall.
      rewrite forallb_forall in Hall.
      specialize (Hall e). rewrite String.eqb_refl in Hall.
      assert (true = false) as Habs; [|done]. symmetry. apply (f_equal negb) in Hall; [done|].
      apply List.filter_In. split; [by apply list_elem_of_In | done].
    - apply forallb_forall. intros e' He'.
      apply List.filter_In in He' as [He' Hexp]. apply list_elem_of_In in He'.
      destruct (String.eqb_spec e'.1 e.1) as [Heq|]; [|done].
      exfalso. destruct e as [k x], e' as [k' x']. simpl in Heq. subst k'.
      pose proof (find_elem _ _ _ Hnd He) as H1.
      pose proof (find_elem _ _ _ Hnd He') as H2.
      rewrite H1 in H2. injection H2 as ->. congruence. }
  split; [done|]. split.
  - rewrite Hc. unfold cleanup. cbn [snd].
    assert (Hsplit : forall l : list (entry V),
              (length (List.filter (is_expired now) l)
               + length (List.filter (fun e => negb (is_expired now e)) l))%nat = length l).
    { induction l as [|e l IH]; simpl; [done|].
      destruct (is_expired now e); simpl; lia. }
    specialize (Hsplit (_cache c)). lia.
  - split.
    + intros key v expiry Hf Hle. unfold get. rewrite Hc, find_filter, Hf by done.
      assert (He : is_expired now (key, (v, expiry)) = false)
        by (unfold is_expired; simpl; by apply Qltb_ge).
      rewrite He. cbn [negb]. unfold is_expired in He. simpl in He. by rewrite He.
    + intros key v expiry Hf Hlt. rewrite Hc, find_filter, Hf by done.
      assert (He : is_expired now (key, (v, expiry)) = true)
        by (unfold is_expired; simpl; by apply Qltb_lt).
      by rewrite He.
Qed.

Lemma cache_ok_maxsize c : cache_ok c -> 0 <= _maxsize c.
Proof. intros [_ H]. lia. Qed.


Lemma get_miss_absent c key now :
  cache_ok c -> (get c key now).2 = None -> find key (_cache (get c key now).1) = None.
Proof.
  intros [Hnd _]. unfold get.
  destruct (find key (_cache c)) as [[v e]|] eqn:Hf; [|intros _; exact Hf].
  destruct (Qltb e now); [|done]. intros _. cbn [fst _cache].
  apply find_None. by apply remove_absent.
Qed.

(** X8: [delete] tells whether the key was there, removes it, and leaves
    every other entry and the two counters as they were. *)
Theorem delete_removes_only_key c key :
  cache_ok c ->
  ((delete c key).2 = true <-> key ∈ keys (_cache c))
  /\ find key (_cache (delete c key).1) = None
  /\ (forall k', k' <> key ->
        find k' (_cache (delete c key).1) = find k' (_cache c))
  /\ lookups (delete c key).1 = lookups c
  /\ cache_ok (delete c key).1.
Proof.
  intros [Hnd Hlen]. unfold delete.
  destruct (find key (_cache c)) as [x|] eqn:Hf; cbn [fst snd with_cache _cache].
  - split.
    { split; [intros _|done]. apply find_Some_elem in Hf.
      unfold keys. apply list_elem_of_fmap. by exists (key, x). }
    split; [apply find_None; by apply remove_absent|].
    split; [intros k' Hne; by apply find_remove_ne|].
    split; [done|]. split; unfold with_cache; cbn [_cache _maxsize]; [by apply NoDup_remove|].
    pose proof (length_remove key (_cache c)). lia.
  - split; [split; [done | intros Hin; by apply find_None in Hf]|].
    split; [done|]. split; [done|]. split; [done|]. by split.
Qed.

Lemma lookups_fold (ops : list (op V * Q)) :
  forall c (n : nat),
  lookups c = Z.of_nat n ->
  lookups (fold_left step ops c)
  = Z.of_nat (fold_left (fun n o => match o.1 with
                                    | Get _ => S n
                                    | Clear => 0%nat
                                    | _ => n
                                    end) ops n).
Proof.
  induction ops as [|[o now] ops IH]; intros c n Hc; simpl; [done|].
  apply IH. unfold step, lookups in *. cbn [fst snd].
  destruct o as [k|k v ttl|k| |].
  - unfold get. destruct (find k (_cache c)) as [[v e]|]; [|simpl; lia].
    destruct (Qltb e now); simpl; lia.
  - unfold set. by destruct (evict _ _).
  - unfold delete. by destruct (find k (_cache c)).
  - done.
  - done.
Qed.

(** X9: the two counters behind [stats] account for every [get]: after any
    history, hits plus misses is the number of [get] calls since the last
    [clear] ([set], [delete] and [cleanup] count nothing). *)
Theorem every_get_is_counted (maxsize default_ttl : Z) (ops : list (op V * Q)) :
  lookups (steps (__init__ maxsize default_ttl) ops) = Z.of_nat (gets_since_clear ops).
Proof. unfold steps, gets_since_clear. by apply lookups_fold. Qed.



(** X11: a [set] that overwrites a key, or that finds the cache below its
    capacity, evicts nothing: every other key keeps its entry. *)
Theorem set_keeps_other_entries c key (value : V) ttl now :
  cache_ok c ->
  is_Some (find key (_cache c)) \/ Z.of_nat (length (_cache c)) < _maxsize c ->
  forall k', k' <> key ->
    find k' (_cache (set c key value ttl now).1) = find k' (_cache c).
Proof.
  intros Hok Hroom k' Hne. pose proof (cache_ok_maxsize c Hok) as Hm.
  destruct Hok as [Hnd Hlen].
  rewrite set_returns by done. unfold with_cache. cbn [fst _cache].
  rewrite length_app. cbn [length].
  assert (Hl : (length (remove key (_cache c)) + 1 <= Z.to_nat (_maxsize c))%nat).
  { destruct Hroom as [[x Hx]|Hlt].
    - pose proof (length_remove_present key _ x Hx). lia.
    - pose proof (length_remove key (_cache c)). lia. }
  replace (length (remove key (_cache c)) + 1 - Z.to_nat (_maxsize c))%nat with 0%nat by lia.
  rewrite drop_0, find_app, find_remove_ne by done.
  destruct (find k' (_cache c)); [done|]. simpl.
  by destruct (String.eqb_spec k' key).
Qed.


(** X13: a wrapped function that returns [None] or raises leaves nothing in
    the cache: the next call under the same key calls the function again,
    and an exception reaches the caller of the wrapper. *)
Theorem cached_call_stores_no_failure c cache_key ttl func now later t func' later' :
  cache_ok c ->
  (get c cache_key now).2 = None ->
  func = Return None \/ (exists e, func = Raise e) ->
  let first := cached_call c cache_key ttl func now later in
  first.1.2 = func /\ first.2 = true
  /\ first.1.1 = (get c cache_key now).1
  /\ (cached_call first.1.1 cache_key ttl func' t later').2 = true.
Proof.
  intros Hok Hmiss Hf first.
  pose proof (get_miss_absent c cache_key now Hok Hmiss) as Habs.
  assert (Hfirst : first = ((get c cache_key now).1, func, true)).
  { unfold first, cached_call.
    destruct (get c cache_key now) as [c1 [x|]] eqn:Hg; [simpl in Hmiss; discriminate|].
    by destruct Hf as [->|[e ->]]. }
  rewrite Hfirst. cbn [fst snd]. split; [done|]. split; [done|]. split; [done|].
  unfold cached_call at 1, get at 1. rewrite Habs.
  destruct func' as [[x|]|e]; [|done|done].
  by destruct (set _ _ _ _ _) as [c2 [u|e]].
Qed.

End CacheMore.

(** * Further properties of the distributed cache *)
Section RedisMore.

Import RedisCache RedisConn.

Context {V : Type}.
Variable sha256_hexdigest : string -> string.
Variable json_dumps : V -> option string.
Variable json_loads : string -> option V.

Implicit Types (c : RedisCache V) (key : string).


(** X15: without a connection, [delete] reports success whether or not the
    key was there, the key is gone for [get] afterwards, and entries under
    other full keys are untouched. *)
Theorem fallback_delete_then_get c key t r1 r2 :
  use_remote c = false ->
  let c' := (delete sha256_hexdigest c key r1).1 in
  (delete sha256_hexdigest c key r1).2 = true
  /\ get sha256_hexdigest json_loads c' key t r2 = (c', None)
  /\ (forall k, k <> full_key sha256_hexdigest c key -> _fallback_cache c' !! k = _fallback_cache c !! k).
Proof.
  intros Hr c'.
  assert (Hc' : c' = with_fallback c (base.delete (full_key sha256_hexdigest c key) (_fallback_cache c))).
  { unfold c', delete. by rewrite Hr. }
  split; [unfold delete; by rewrite Hr|]. split.
  - unfold get. replace (use_remote c') with false by (by rewrite Hc').
    unfold _fallback_get. replace (full_key sha256_hexdigest c' key) with (full_key sha256_hexdigest c key) by (by rewrite Hc').
    replace (_fallback_cache c' !! full_key sha256_hexdigest c key) with (@None (V * Q)); [done|].
    rewrite Hc'. symmetry. apply lookup_delete_eq.
  - intros k Hne. rewrite Hc'. cbn [_fallback_cache with_fallback].
    by apply lookup_delete_ne.
Qed.

(** X17: without a connection, [exists] and [get] agree: [exists] is true
    exactly when [get] at the same moment returns a value. *)
Theorem fallback_exists_agrees_with_get c key now r1 r2 :
  use_remote c = false ->
  exists_ sha256_hexdigest c key now r1 = true
  <-> exists v, (get sha256_hexdigest json_loads c key now r2).2 = Some v.
Proof.
  intros Hr. unfold exists_, get, _fallback_get. rewrite Hr.
  destruct (_fallback_cache c !! full_key sha256_hexdigest c key) as [[v e]|].
  - destruct (Qltb now e); split; try done; [by exists v | by intros [? ?]].
  - split; [done | by intros [? ?]].
Qed.

End RedisMore.

Section RedisFallback.

Import RedisCache RedisConn.

Context {V : Type}.

Implicit Types (c : RedisCache V) (key : string).

Lemma lookup_fold_delete (ks : list string) (m : gmap string (V * Q)) k :
  fold_left (fun m k => base.delete k m) ks m !! k
  = if bool_decide (k ∈ ks) then None else m !! k.
Proof.
  revert m. induction ks as [|k0 ks IH]; intros m; simpl; [done|].
  rewrite IH. destruct (decide (k = k0)) as [->|Hne].
  - rewrite lookup_delete_eq.
    rewrite (bool_decide_eq_true_2 (k0 ∈ k0 :: ks)) by left. by destruct (bool_decide _).
  - rewrite lookup_delete_ne by done.
    destruct (bool_decide (k ∈ ks)) eqn:E.
    + apply bool_decide_eq_true_1 in E.
      by rewrite (bool_decide_eq_true_2 (k ∈ k0 :: ks)) by (by right).
    + apply bool_decide_eq_false_1 in E.
      rewrite (bool_decide_eq_false_2 (k ∈ k0 :: ks)); [done|].
      rewrite elem_of_cons. tauto.
Qed.

Lemma size_fold_delete (ks : list string) (m : gmap string (V * Q)) :
  NoDup ks -> (forall k, k ∈ ks -> is_Some (m !! k)) ->
  (size (fold_left (fun m k => base.delete k m) ks m) + length ks)%nat = size m.
Proof.
  revert m. induction ks as [|k0 ks IH]; intros m Hnd Hin; simpl; [lia|].
  apply NoDup_cons in Hnd as [Hk0 Hnd].
  assert (Hin' : forall k, k ∈ ks -> is_Some (base.delete k0 m !! k)).
  { intros k Hk. rewrite lookup_delete_ne by (intros ->; done). apply Hin. by right. }
  pose proof (IH (base.delete k0 m) Hnd Hin') as Hrec.
  destruct (Hin k0 ltac:(left)) as [x Hx].
  pose proof (map_size_delete k0 m) as Hs. rewrite Hx in Hs.
  assert (size m <> 0%nat) by (apply map_size_ne_0_lookup_2 with k0; by eexists).
  simpl in Hs. lia.
Qed.

Lemma NoDup_list_filter (P : string -> bool) (l : list string) :
  NoDup l -> NoDup (List.filter P l).
Proof.
  induction l as [|x l IH]; simpl; [done|].
  rewrite NoDup_cons. intros [Hx Hnd].
  destruct (P x); [|by apply IH].
  apply NoDup_cons. split; [|by apply IH].
  intros Hin. apply Hx. apply list_elem_of_In, List.filter_In in Hin as [Hin _].
  by apply list_elem_of_In.
Qed.

(** X16: without a connection, [clear_prefix] removes exactly the entries
    whose full key starts with the prefixed pattern, keeps every other
    entry, and returns the number of entries removed. *)
Theorem fallback_clear_prefix_exact c pfx r :
  use_remote c = false ->
  let c' := (clear_prefix c pfx r).1 in
  (forall k, _fallback_cache c' !! k
             = if String.prefix (_make_key c pfx) k then None else _fallback_cache c !! k)
  /\ (clear_prefix c pfx r).2
     = Z.of_nat (size (_fallback_cache c)) - Z.of_nat (size (_fallback_cache c')).
Proof.
  intros Hr c'. unfold c', clear_prefix. rewrite Hr. cbn [fst snd _fallback_cache with_fallback].
  set (ks := List.filter (String.prefix (_make_key c pfx))
                         (map fst (map_to_list (_fallback_cache c)))).
  assert (Hks : forall k, k ∈ ks <->
            String.prefix (_make_key c pfx) k = true /\ is_Some (_fallback_cache c !! k)).
  { intros k. unfold ks. rewrite list_elem_of_In, List.filter_In, <- list_elem_of_In.
    rewrite list_elem_of_fmap. split.
    - intros [([k' x] & -> & Hin) Hp]. split; [done|].
      apply elem_of_map_to_list in Hin. by eexists.
    - intros [Hp [x Hx]]. split; [|done]. exists (k, x). split; [done|].
      by apply elem_of_map_to_list. }
  split.
  - intros k. rewrite lookup_fold_delete.
    destruct (bool_decide (k ∈ ks)) eqn:E.
    + apply bool_decide_eq_true_1, Hks in E as [-> _]. done.
    + apply bool_decide_eq_false_1 in E. rewrite Hks in E.
      destruct (String.prefix (_make_key c pfx) k); [|done].
      destruct (_fallback_cache c !! k) eqn:El; [|done].
      exfalso. apply E. split; [done | by eexists].
  - assert (Hnd : NoDup ks).
    { unfold ks. apply NoDup_list_filter. apply NoDup_fst_map_to_list. }
    pose proof (size_fold_delete ks (_fallback_cache c) Hnd
                  (fun k Hk => proj2 (proj1 (Hks k) Hk))).
    lia.
Qed.

(** X18: the connection flag follows the outcome of [connect] and
    [disconnect].  When the package is there, [connect] returns [True]
    exactly when later operations use the remote store; a [disconnect] that
    returns leaves the cache on its fallback dict, while an exception of
    [close] is not caught and leaves the cache connected; none of them
    touches the fallback dict. *)
Theorem connection_flag_tracks_outcome (available : bool) c o close :
  (available = true ->
     (connect available c o).2 = use_remote (connect available c o).1)
  /\ (available = false -> connect available c o = (c, false))
  /\ _fallback_cache (connect available c o).1 = _fallback_cache c
  /\ ((disconnect c close).2 = Return () -> use_remote (disconnect c close).1 = false)
  /\ (forall msg, close = Fails msg -> use_remote c = true ->
        disconnect c close = (c, Raise (Exn "Exception" msg)))
  /\ _fallback_cache (disconnect c close).1 = _fallback_cache c.
Proof.
  unfold connect, disconnect, use_remote.
  split; [intros ->; by destruct o|]. split; [by intros ->|].
  split; [destruct available; [by destruct o | done]|].
  split; [|split].
  - destruct (_client c) eqn:E1, (_connected c) eqn:E2; simpl; rewrite ?E1, ?E2; try done.
    by destruct close.
  - intros msg -> H. rewrite andb_comm in H. by rewrite H.
  - destruct (_client c && _connected c); [by destruct close | done].
Qed.

End RedisFallback.

(** * Further properties of the token validator and the authentication gate *)
Section AuthMore.

Import OAuth Auth Scopes.

Variable sha256_hexdigest : string -> string.

Implicit Types (v : OAuthValidator) (m : AuthMiddleware) (w : world) (token : string).

(** A token that [_introspect_token] reports with a truthy [active] comes
    from a 200 answer whose body is an object with a truthy ["active"]
    entry and a scope that is not set, empty or a string. *)
Lemma introspect_active outcome :
  truthy (active (_introspect_token outcome)) = true ->
  exists data a scope,
    outcome = IntrospectionResponse 200 (Return (JDict data))
    /\ dict_get "active" data = Some a /\ truthy a = true
    /\ scope_list data = Return scope
    /\ _introspect_token outcome
       = mkTokenInfo a (get_or_none "sub" data) (get_or_none "client_id" data) scope
                     (get_or_none "exp" data) (get_or_none "iat" data).
Proof.
  destruct outcome as [msg|status [body|e]]; simpl; try done.
  - destruct (Z.eqb_spec status 200) as [->|Hne]; simpl; [|done].
    destruct body as [ | | | | | | |data]; simpl; try done.
    destruct (scope_list data) as [scope|e] eqn:Es; simpl; [|done].
    destruct (dict_get "active" data) as [a|] eqn:Ea; simpl; [|done].
    intros Ht. by exists data, a, scope.
  - by destruct (negb (status =? 200)).
Qed.

(** The document of a 200 answer, read back. *)
Lemma introspect_document data a scope :
  dict_get "active" data = Some a -> scope_list data = Return scope ->
  _introspect_token (IntrospectionResponse 200 (Return (JDict data)))
  = mkTokenInfo a (get_or_none "sub" data) (get_or_none "client_id" data) scope
                (get_or_none "exp" data) (get_or_none "iat" data).
Proof. intros Ha Hs. simpl. by rewrite Hs, Ha. Qed.

(** [is_expired] raises nothing but the [TypeError] of the comparison. *)
Lemma is_expired_raises info now e :
  is_expired info now = Raise e -> exn_class e = "TypeError".
Proof.
  unfold is_expired, clock_after.
  destruct (expires_at info) as [ | | | |[| |]| | | ]; try done; by intros [= <-].
Qed.

Lemma bearer_result_inv info now :
  match bearer_result info now with
  | Return r =>
      (authenticated r = true ->
         truthy (active info) = true /\ is_expired info now = Return false
         /\ r = mkAuthResult true (subject info) (Some "oauth") (scopes info) None None)
      /\ (authenticated r = false ->
          r = mkAuthResult false JNull None [] (Some "invalid_token")
                           (Some "Token is invalid or expired"))
  | Raise e => truthy (active info) = true /\ is_expired info now = Raise e
  end.
Proof.
  unfold bearer_result. destruct (truthy (active info)); [|by split].
  destruct (is_expired info now) as [[|]|e]; by repeat split.
Qed.

Lemma validate_token_miss v token now outcome later :
  introspection_url v <> "" ->
  _cache v !! _cache_key sha256_hexdigest token = None ->
  validate_token sha256_hexdigest v token now outcome later
  = (_set_cached sha256_hexdigest v token (_introspect_token outcome) later,
     _introspect_token outcome, [CallIntrospect (introspection_url v) token]).
Proof.
  intros Hu Hl. unfold validate_token, _get_cached. rewrite Hl.
  by replace (String.eqb (introspection_url v) "") with false
    by (symmetry; by apply String.eqb_neq).
Qed.

(** X19: introspection fails closed.  With an endpoint configured and
    nothing cached for the token, the endpoint is asked exactly once, and a
    bearer token is accepted only when the endpoint answered 200 with an
    object whose ["active"] entry is truthy, whose scope is unset, empty or
    a string, and whose ["exp"] is unset or a number the clock has not
    passed; a transport error, another status, an undecodable body or a
    body that is not an object all end in [invalid_token].  The entry need
    not be the boolean [true]: any truthy value passes.  An ["exp"] that is
    not a number, on a document with a truthy ["active"], makes the call
    raise [TypeError]. *)
Theorem introspection_fails_closed m header api_token_param transport w token :
  transport <> "stdio" ->
  if_truthy (extract_bearer_token header) = Some token ->
  introspection_url (oauth_validator m) <> "" ->
  _cache (oauth_validator m) !! _cache_key sha256_hexdigest token = None ->
  let out := authenticate sha256_hexdigest m header api_token_param transport w in
  out.2 = [CallIntrospect (introspection_url (oauth_validator m)) token]
  /\ (forall r, out.1.2 = Return r -> authenticated r = true ->
      exists data a scope,
        introspect w = IntrospectionResponse 200 (Return (JDict data))
        /\ dict_get "active" data = Some a /\ truthy a = true
        /\ scope_list data = Return scope
        /\ (get_or_none "exp" data = JNull
            \/ clock_after (clock_check w) (get_or_none "exp" data) = Return false)
        /\ r = mkAuthResult true (get_or_none "sub" data) (Some "oauth") scope None None)
  /\ (forall r, out.1.2 = Return r -> authenticated r = false ->
      error r = Some "invalid_token" /\ auth_scopes r = [])
  /\ (forall e, out.1.2 = Raise e ->
      exn_class e = "TypeError"
      /\ exists data a,
           introspect w = IntrospectionResponse 200 (Return (JDict data))
           /\ dict_get "active" data = Some a /\ truthy a = true
           /\ clock_after (clock_check w) (get_or_none "exp" data) = Raise e)
  /\ (forall data a scope,
        introspect w = IntrospectionResponse 200 (Return (JDict data)) ->
        dict_get "active" data = Some a -> truthy a = true ->
        scope_list data = Return scope -> get_or_none "exp" data = JNull ->
        out.1.2 = Return (mkAuthResult true (get_or_none "sub" data) (Some "oauth") scope
                                       None None)).
Proof.
  intros Ht Hb Hu Hl out. unfold out.
  rewrite (authenticate_bearer _ _ _ _ _ _ token) by done. cbn zeta.
  unfold validation. rewrite validate_token_miss by done. cbn [fst snd].
  set (info := _introspect_token (introspect w)).
  pose proof (bearer_result_inv info (clock_check w)) as Hinv.
  split; [done|]. split; [|split; [|split]].
  - intros r Hr Ha. rewrite Hr in Hinv. destruct Hinv as [Hacc _].
    destruct (Hacc Ha) as (Hact & Hexp & ->).
    destruct (introspect_active _ Hact) as (data & a & scope & Hw & Hd & Hta & Hs & Hi).
    exists data, a, scope. fold info in Hi.
    split; [done|]. split; [done|]. split; [done|]. split; [done|].
    rewrite Hi in Hexp |- *. cbn [subject scopes]. split; [|done].
    unfold is_expired in Hexp. cbn [expires_at] in Hexp.
    destruct (get_or_none "exp" data); try (by right); by left.
  - intros r Hr Ha. rewrite Hr in Hinv. destruct Hinv as [_ Hrej].
    by rewrite (Hrej Ha).
  - intros e Hr. rewrite Hr in Hinv. destruct Hinv as [Hact Hexp].
    split; [by apply is_expired_raises with info (clock_check w)|].
    destruct (introspect_active _ Hact) as (data & a & scope & Hw & Hd & Hta & Hs & Hi).
    exists data, a. fold info in Hi.
    split; [done|]. split; [done|]. split; [done|].
    rewrite Hi in Hexp. unfold is_expired in Hexp. cbn [expires_at] in Hexp.
    by destruct (get_or_none "exp" data).
  - intros data a scope Hw Hd Hta Hs He. unfold info.
    rewrite Hw, (introspect_document data a scope) by done.
    rewrite bearer_result_accepts; [done | done |].
    unfold is_expired. cbn [expires_at]. by rewrite He.
Qed.

(** X20: a cached result is used for [cache_ttl] seconds only.  Once that
    time has passed since it was stored, the validator drops it, asks the
    endpoint again and stores the new answer with the new time. *)
Theorem stale_result_is_revalidated v token info cached_at now outcome later :
  introspection_url v <> "" ->
  _cache v !! _cache_key sha256_hexdigest token = Some (info, cached_at) ->
  (inject_Z (cache_ttl v) <= now - cached_at)%Q ->
  let r := validate_token sha256_hexdigest v token now outcome later in
  r.1.2 = _introspect_token outcome
  /\ r.2 = [CallIntrospect (introspection_url v) token]
  /\ _cache r.1.1 !! _cache_key sha256_hexdigest token
     = Some (_introspect_token outcome, later).
Proof.
  intros Hu Hl Ht r. unfold r, validate_token, _get_cached. rewrite Hl.
  replace (Qltb (now - cached_at) (inject_Z (cache_ttl v))) with false
    by (symmetry; by apply Qltb_ge).
  cbn [introspection_url with_cache].
  replace (String.eqb (introspection_url v) "") with false
    by (symmetry; by apply String.eqb_neq).
  cbn [negb fst snd]. split; [done|]. split; [done|]. apply lookup_insert_eq.
Qed.

Lemma full_access_required tool_name :
  mem "full-access" (get_required_scopes tool_name) = true.
Proof.
  unfold get_required_scopes.
  assert (H : forall table,
            forallb (fun kv => mem "full-access" kv.2) table = true ->
            mem "full-access" (default ["full-access"] (lookup_tool tool_name table)) = true).
  { induction table as [|[k s] table IH]; simpl; [done|].
    intros Hall. apply andb_true_iff in Hall as [Hs Hall].
    destruct (String.eqb tool_name k); [done | by apply IH]. }
  apply H. vm_compute. reflexivity.
Qed.

(** X21: [check_scope] grants an operation exactly to an authenticated
    result that holds one of the operation's scopes; every operation, known
    or not, lists [full-access], so a result with that scope passes every
    check, and a result that is not authenticated passes none. *)
Theorem check_scope_characterised (r : AuthResult) (tool_name : string) :
  (check_scope r tool_name = true <->
     authenticated r = true
     /\ exists scope, scope ∈ get_required_scopes tool_name /\ scope ∈ auth_scopes r)
  /\ "full-access" ∈ get_required_scopes tool_name
  /\ (authenticated r = true -> "full-access" ∈ auth_scopes r ->
      check_scope r tool_name = true).
Proof.
  assert (Hmem : forall x xs, mem x xs = true <-> x ∈ xs).
  { intros x xs. unfold mem. rewrite existsb_exists. split.
    - intros (y & Hy & Heq). apply String.eqb_eq in Heq as ->. by apply list_elem_of_In.
    - intros Hx. exists x. split; [by apply list_elem_of_In | apply String.eqb_refl]. }
  assert (Hchar : check_scope r tool_name = true <->
            authenticated r = true
            /\ exists scope, scope ∈ get_required_scopes tool_name /\ scope ∈ auth_scopes r).
  { unfold check_scope. destruct (authenticated r); simpl.
    - rewrite existsb_exists. split.
      + intros (s & Hs & Hm). split; [done|]. exists s.
        split; [by apply list_elem_of_In | by apply Hmem].
      + intros [_ (s & Hs & Hm)]. exists s.
        split; [by apply list_elem_of_In | by apply Hmem].
    - split; [done | by intros [? _]]. }
  pose proof (proj1 (Hmem _ _) (full_access_required tool_name)) as Hfull.
  split; [done|]. split; [done|].
  intros Ha Hs. apply Hchar. split; [done|]. by exists "full-access".
Qed.

Lemma mem_elem_of (x : string) (xs : list string) : mem x xs = true <-> x ∈ xs.
Proof.
  unfold mem. rewrite existsb_exists. split.
  - intros (y & Hy & Heq). apply String.eqb_eq in Heq as ->. by apply list_elem_of_In.
  - intros Hx. exists x. split; [by apply list_elem_of_In | apply String.eqb_refl].
Qed.

(** A result that holds [full-access] passes the check of every operation. *)
Lemma check_scope_full_access (r : AuthResult) (tool_name : string) :
  authenticated r = true -> mem "full-access" (auth_scopes r) = true ->
  check_scope r tool_name = true.
Proof.
  intros Ha Hs. unfold check_scope. rewrite Ha. cbn [negb].
  apply existsb_exists. exists "full-access".
  split; [|done]. apply list_elem_of_In, mem_elem_of, full_access_required.
Qed.

(** X22: with no introspection endpoint configured and nothing cached, any
    non-empty bearer token is accepted over a transport other than stdio:
    the result is an [oauth] success with the single scope [full-access],
    which passes the scope check of every operation, and nothing is asked
    of any server. *)
Theorem unconfigured_validator_accepts_any_token
    m header api_token_param transport w token tool_name :
  transport <> "stdio" ->
  if_truthy (extract_bearer_token header) = Some token ->
  introspection_url (oauth_validator m) = "" ->
  _cache (oauth_validator m) !! _cache_key sha256_hexdigest token = None ->
  authenticate sha256_hexdigest m header api_token_param transport w
  = (m, Return (mkAuthResult true JNull (Some "oauth") ["full-access"] None None), [])
  /\ (forall r,
        (authenticate sha256_hexdigest m header api_token_param transport w).1.2 = Return r ->
        check_scope r tool_name = true).
Proof.
  intros Ht Hb Hu Hl.
  assert (Heq : authenticate sha256_hexdigest m header api_token_param transport w
                = (m, Return (mkAuthResult true JNull (Some "oauth") ["full-access"] None None),
                   [])).
  { rewrite (authenticate_bearer _ _ _ _ _ _ token) by done. cbn zeta.
    unfold validation. rewrite fallback_result_not_cached by done.
    cbn [fst snd]. rewrite bearer_result_accepts by done.
    by destruct m. }
  split; [done|]. rewrite Heq. cbn [fst snd]. intros r [= <-].
  by apply check_scope_full_access.
Qed.

Lemma well_formed_env : well_formed env_result.
Proof. split; cbn; [intros _; split; [done | tauto] | done]. Qed.

Lemma well_formed_missing description : well_formed (missing_token description).
Proof. split; cbn; [done | intros _; split; [done|]; split; [done | tauto]]. Qed.

Lemma well_formed_legacy o : well_formed (validate_legacy_api_key o).
Proof.
  unfold validate_legacy_api_key.
  destruct o as [msg|status [uid|e]]; try destruct (status =? 200);
    split; cbn; intros H; try discriminate H; repeat split; try done; tauto.
Qed.

Lemma well_formed_bearer info now r : bearer_result info now = Return r -> well_formed r.
Proof.
  intros Hr. pose proof (bearer_result_inv info now) as Hinv. rewrite Hr in Hinv.
  destruct Hinv as [Hacc Hrej]. split; intros Ha.
  - destruct (Hacc Ha) as (_ & _ & ->). cbn. split; [done | tauto].
  - rewrite (Hrej Ha). cbn. split; [done|]. split; [done | tauto].
Qed.

(** X23: every result that [authenticate] returns is well formed.  A
    success carries no error and one of the methods [oauth], [api_key],
    [env]; a failure carries no method, no scope and one of the errors
    [missing_token], [invalid_token], [server_error].  The one exception
    that [authenticate] lets through is the [TypeError] of [is_expired], on
    the bearer path, for a token with a truthy [active] whose [expires_at]
    is not a number.  At most one server is asked, none over stdio, and the
    two switches of the middleware are left as they were. *)
Theorem authenticate_result_well_formed m header api_token_param transport w :
  let out := authenticate sha256_hexdigest m header api_token_param transport w in
  (forall r, out.1.2 = Return r ->
     (authenticated r = true ->
        error r = None
        /\ (method r = Some "oauth" \/ method r = Some "api_key" \/ method r = Some "env"))
     /\ (authenticated r = false ->
         method r = None /\ auth_scopes r = []
         /\ (error r = Some "missing_token" \/ error r = Some "invalid_token"
             \/ error r = Some "server_error")))
  /\ (forall e, out.1.2 = Raise e ->
        exn_class e = "TypeError" /\ transport <> "stdio"
        /\ exists token,
             if_truthy (extract_bearer_token header) = Some token
             /\ truthy (active (validation sha256_hexdigest m token w).1.2) = true
             /\ is_expired (validation sha256_hexdigest m token w).1.2 (clock_check w)
                = Raise e)
  /\ (length out.2 <= 1)%nat
  /\ (transport = "stdio" -> out.2 = [] /\ out.1.1 = m)
  /\ allow_legacy_api_key out.1.1 = allow_legacy_api_key m
  /\ allow_env_api_key out.1.1 = allow_env_api_key m.
Proof.
  intros out. unfold out.
  destruct (String.eqb_spec transport "stdio") as [->|Hne].
  - unfold authenticate. cbn [String.eqb Ascii.eqb Bool.eqb].
    destruct (allow_env_api_key m && nonempty (EODHD_API_KEY w)); cbn [fst snd].
    + split; [intros r [= <-]; apply well_formed_env|].
      split; [by intros e|]. repeat split; simpl; lia.
    + split; [intros r [= <-]; apply well_formed_missing|].
      split; [by intros e|]. repeat split; simpl; lia.
  - destruct (if_truthy (extract_bearer_token header)) as [token|] eqn:Hb.
    + rewrite (authenticate_bearer _ _ _ _ _ _ token) by done. cbn zeta. cbn [fst snd].
      assert (Hc : (length (validation sha256_hexdigest m token w).2 <= 1)%nat).
      { unfold validation, validate_token.
        destruct (_get_cached _ _ _ _) as [v' [i|]]; [simpl; lia|].
        destruct (negb _); simpl; lia. }
      split; [intros r Hr; by apply well_formed_bearer in Hr|].
      split; [|split; [done|split; [done|by split]]].
      intros e Hr.
      pose proof (bearer_result_inv (validation sha256_hexdigest m token w).1.2 (clock_check w))
        as Hinv.
      rewrite Hr in Hinv. destruct Hinv as [Hact Hexp].
      split; [by apply is_expired_raises in Hexp|].
      split; [done|]. by exists token.
    + unfold authenticate.
      replace (String.eqb transport "stdio") with false by (symmetry; by apply String.eqb_neq).
      rewrite Hb.
      destruct (if allow_legacy_api_key m then if_truthy api_token_param else None).
      * cbn [fst snd]. split; [intros r [= <-]; apply well_formed_legacy|].
        split; [by intros e|]. repeat split; simpl; try lia; done.
      * destruct (allow_env_api_key m && nonempty (EODHD_API_KEY w)); cbn [fst snd].
        -- split; [intros r [= <-]; apply well_formed_env|].
           split; [by intros e|]. repeat split; simpl; try lia; done.
        -- split; [intros r [= <-]; apply well_formed_missing|].
           split; [by intros e|]. repeat split; simpl; try lia; done.
Qed.

(** X24: a legacy key is decided by the user-profile endpoint alone.  With
    no usable bearer token, legacy keys allowed and a non-empty
    [api_token], the result is what the endpoint's answer maps to (200: an
    [api_key] success with [full-access]; another status:
    [invalid_token]; an exception: [server_error]); a key that is turned
    down is not rescued by the environment key. *)
Theorem legacy_key_decided_by_endpoint m header api_token_param transport w api_key :
  transport <> "stdio" ->
  if_truthy (extract_bearer_token header) = None ->
  allow_legacy_api_key m = true ->
  if_truthy api_token_param = Some api_key ->
  let out := authenticate sha256_hexdigest m header api_token_param transport w in
  let r := validate_legacy_api_key (legacy w) in
  out = (m, Return r, [CallLegacy api_key])
  /\ (forall status id, legacy w = LegacyResponse status id -> status <> 200 ->
        authenticated r = false /\ error r = Some "invalid_token")
  /\ (forall msg, legacy w = LegacyRaises msg ->
        authenticated r = false /\ error r = Some "server_error")
  /\ (forall uid, legacy w = LegacyResponse 200 (Return uid) ->
        r = mkAuthResult true (JStr uid) (Some "api_key") ["full-access"] None None).
Proof.
  intros Ht Hb Hl Hp out r.
  assert (Heq : out = (m, Return r, [CallLegacy api_key])).
  { unfold out, authenticate.
    replace (String.eqb transport "stdio") with false by (symmetry; by apply String.eqb_neq).
    by rewrite Hb, Hl, Hp. }
  split; [done|]. unfold r, validate_legacy_api_key.
  split; [|split].
  - intros status id -> Hs.
    by replace (status =? 200) with false by (symmetry; by apply Z.eqb_neq).
  - by intros msg ->.
  - by intros uid ->.
Qed.

(** Two documents of a careless endpoint.  The string ["false"] under
    ["active"] is truthy, and the token is accepted; a string of digits
    under ["exp"] cannot be compared with the clock, and [authenticate]
    raises. *)
Lemma careless_documents :
  (authenticate (fun s => s) demo_middleware (Some "Bearer abc123") None "http"
     text_active_world).1.2
  = Return (mkAuthResult true (JStr "user-1") (Some "oauth") ["read:eod"; "read:news"]
                         None None)
  /\ (authenticate (fun s => s) demo_middleware (Some "Bearer abc123") None "http"
        text_exp_world).1.2
     = Raise (unorderable "str").
Proof. split; reflexivity. Qed.

End AuthMore.

(** * The header parser *)
Section BearerFacts.

Import Auth.

Lemma dropWhile_head (p : ascii -> bool) (l : list ascii) :
  Forall (fun a => p a = false) l -> dropWhile p l = l.
Proof. destruct l as [|a l]; simpl; [done|]. intros H. by rewrite (Forall_inv H). Qed.

Lemma takeWhile_all (p : ascii -> bool) (l : list ascii) :
  Forall (fun a => p a = true) l -> takeWhile p l = l.
Proof.
  induction l as [|a l IH]; simpl; [done|].
  intros H. rewrite (Forall_inv H). f_equal. apply IH. by apply Forall_inv_tail in H.
Qed.

Lemma strip_no_space (l : list ascii) :
  Forall (fun a => is_space a = false) l -> strip l = l.
Proof.
  intros H. unfold strip, lstrip. rewrite (dropWhile_head _ l H).
  rewrite dropWhile_head by (by apply Forall_rev). apply rev_involutive.
Qed.

Lemma group_after_spaces_token (ws tok pre : list ascii) :
  Forall (fun a => is_space a = true) ws ->
  tok <> [] -> Forall (fun a => is_space a = false) tok ->
  pre ++ ws <> [] ->
  group_after_spaces pre (ws ++ tok) = Some tok.
Proof.
  intros Hws Hne Htok. revert pre. induction ws as [|a ws IH]; intros pre Hpre.
  - simpl. destruct tok as [|b tok]; [done|]. cbn [group_after_spaces].
    rewrite (Forall_inv Htok). rewrite app_nil_r in Hpre.
    destruct pre; [done|]. f_equal. apply takeWhile_all.
    eapply Forall_impl; [exact Htok|]. intros c Hc. unfold not_newline.
    destruct (Ascii.eqb_spec c newline) as [->|]; [|done].
    by vm_compute in Hc.
  - cbn [app group_after_spaces]. rewrite (Forall_inv Hws).
    apply IH; [by apply Forall_inv_tail in Hws|]. by destruct ws, pre.
Qed.

(** X25: the header parser returns the token of a well-formed header.  For
    a non-empty token without white space, put after the keyword [Bearer]
    and one or more white-space characters, [extract_bearer_token] returns
    exactly the token. *)
Theorem extract_bearer_token_roundtrip (ws tok : list ascii) :
  ws <> [] -> Forall (fun a => is_space a = true) ws ->
  tok <> [] -> Forall (fun a => is_space a = false) tok ->
  extract_bearer_token (Some ("Bearer" +:+ string_of_list_ascii (ws ++ tok)))
  = Some (string_of_list_ascii tok)
  /\ if_truthy (extract_bearer_token (Some ("Bearer" +:+ string_of_list_ascii (ws ++ tok))))
     = Some (string_of_list_ascii tok).
Proof.
  intros Hws Hsp Hne Htok.
  assert (He : extract_bearer_token (Some ("Bearer" +:+ string_of_list_ascii (ws ++ tok)))
               = Some (string_of_list_ascii tok)).
  { unfold extract_bearer_token.
    change ("Bearer" +:+ string_of_list_ascii (ws ++ tok))
      with (String "B" (String "e" (String "a" (String "r" (String "e" (String "r"
              (string_of_list_ascii (ws ++ tok)))))))).
    cbn [String.eqb list_ascii_of_string].
    replace (Ascii.eqb "B" "B") with true by reflexivity. cbn [andb].
    change (list_ascii_of_string "Bearer")
      with ["B"; "e"; "a"; "r"; "e"; "r"]%char.
    replace (after_keyword ["B"; "e"; "a"; "r"; "e"; "r"]%char
               ("B" :: "e" :: "a" :: "r" :: "e" :: "r"
                  :: list_ascii_of_string (string_of_list_ascii (ws ++ tok)))%char)
      with (Some (list_ascii_of_string (string_of_list_ascii (ws ++ tok)))) by reflexivity.
    rewrite list_ascii_of_string_of_list_ascii.
    rewrite group_after_spaces_token by (done || by destruct ws).
    by rewrite strip_no_space. }
  split; [done|]. rewrite He. unfold if_truthy.
  destruct tok as [|a tok]; [done|]. reflexivity.
Qed.

End BearerFacts.

Lemma extract_bearer_token_roundtrip_witness :
  [" "; " "]%char <> []
  /\ Forall (fun a => is_space a = true) [" "; " "]%char
  /\ ["t"; "o"; "k"]%char <> []
  /\ Forall (fun a => is_space a = false) ["t"; "o"; "k"]%char
  /\ Auth.extract_bearer_token
       (Some ("Bearer" +:+ string_of_list_ascii ([" "; " "] ++ ["t"; "o"; "k"])%char))
     = Some (string_of_list_ascii ["t"; "o"; "k"]%char).
Proof.
  assert (H1 : [" "; " "]%char <> []) by discriminate.
  assert (H2 : Forall (fun a => is_space a = true) [" "; " "]%char)
    by (repeat constructor).
  assert (H3 : ["t"; "o"; "k"]%char <> []) by discriminate.
  assert (H4 : Forall (fun a => is_space a = false) ["t"; "o"; "k"]%char)
    by (repeat constructor).
  split; [exact H1|]. split; [exact H2|]. split; [exact H3|]. split; [exact H4|].
  exact (proj1 (extract_bearer_token_roundtrip _ _ H1 H2 H3 H4)).
Defined.

(** * Further properties of the batch orchestrator *)
Section BatchMore.

Import Batch BatchHelpers.

Variable EODHD_API_BASE : string.
Variable py_str_item : item -> string.
Variable py_repr : json -> string.

Lemma classify_fold_errors rs (m : gmap string json) (errs : list string) :
  (fold_left (classify py_repr) rs (m, errs)).2
  = errs ++ map (error_entry py_repr) (List.filter task_failed rs).
Proof.
  revert m errs. induction rs as [|t rs IH]; intros m errs; cbn [fold_left List.filter].
  - by rewrite app_nil_r.
  - destruct t as [msg|identifier data]; cbn [classify fst snd].
    + change (task_failed (TaskRaised msg)) with true.
      rewrite IH. cbn [map error_entry]. by rewrite <- app_assoc.
    + assert (Hf : task_failed (TaskReturned identifier data) = negb (is_success data))
        by reflexivity.
      rewrite Hf. destruct (is_success data); cbn [negb fst snd].
      * by rewrite IH.
      * rewrite IH. cbn [map error_entry]. by rewrite <- app_assoc.
Qed.

(** X26: the error list holds one entry per failed task, in task order: the
    text of the exception for a task that raised, and
    [identifier: message] for a payload that did not pass, the message
    being ["No data"] for a payload that is not a dict, ["Unknown error"]
    for a dict without an ["error"] entry and the text of that entry
    otherwise.  When every task failed the successes map is empty, [count]
    is 0 and the errors are as many as the items. *)
Theorem errors_follow_task_order items url_builder fetch r :
  process py_str_item py_repr items url_builder fetch = Return r ->
  exists tasks,
    build_tasks py_str_item url_builder items = Return tasks /\
    let rs := gather fetch tasks in
    default [] (errors r) = map (error_entry py_repr) (List.filter task_failed rs)
    /\ (forall identifier,
          error_entry py_repr (TaskReturned identifier JNull) = identifier +:+ ": No data"
          /\ error_entry py_repr (TaskReturned identifier (JList []))
             = identifier +:+ ": No data"
          /\ error_entry py_repr (TaskReturned identifier (JDict []))
             = identifier +:+ ": Unknown error"
          /\ forall e, error_entry py_repr (TaskReturned identifier (JDict [("error", JStr e)]))
                       = identifier +:+ ": " +:+ e)
    /\ (Forall (fun t => task_failed t = true) rs ->
        results r = ∅ /\ count r = 0%nat /\ error_count r = total r).
Proof.
  unfold process. destruct (build_tasks _ _ items) as [tasks|e] eqn:Hb; [|done].
  intros [= <-]. exists tasks. split; [done|]. cbn zeta.
  set (rs := gather fetch tasks).
  pose proof (classify_fold_errors rs ∅ []) as He. cbn [app] in He.
  destruct (classify_fold py_repr rs ∅ []) as (H1 & H2 & _).
  set (acc := fold_left (classify py_repr) rs (∅, [])) in *.
  assert (Herr : default [] (errors (summarize items acc)) = acc.2).
  { unfold summarize. cbn [errors]. by destruct acc.2. }
  assert (Hlen : length rs = length items).
  { unfold rs, gather. rewrite length_imap.
    rewrite <- (length_map snd tasks), (build_tasks_ids _ _ _ _ Hb). apply length_map. }
  split; [by rewrite Herr|]. split; [done|].
  intros Hall.
  assert (Hf : List.filter task_failed rs = rs).
  { clear -Hall. induction rs as [|t rs IH]; simpl; [done|].
    rewrite (Forall_inv Hall). f_equal. apply IH. by apply Forall_inv_tail in Hall. }
  assert (Hok : length (ok_ids rs) = 0%nat).
  { pose proof (ok_failed_length rs) as Hs. rewrite Hf, <- ok_ids_length in Hs. lia. }
  rewrite map_size_empty, Hok in H2.
  assert (Hsz : size acc.1 = 0%nat) by lia.
  unfold summarize at 1 2. cbn [results count].
  split; [by apply map_size_empty_inv|]. split; [done|].
  unfold error_count. replace (match errors (summarize items acc) with
                               | Some l => length l | None => 0%nat end)
    with (length (default [] (errors (summarize items acc))))
    by (by destruct (errors _)).
  rewrite Herr, He, Hf, length_map. unfold summarize. cbn [total]. lia.
Qed.

Lemma identifier_of_symbol s :
  identifier_of py_str_item [("id", s); ("symbol", s)] = s.
Proof. reflexivity. Qed.

(** The tasks of a batch of symbols, for a URL builder that reads the
    symbol of the item. *)
Lemma build_tasks_symbols (url_of : string -> string) url_builder symbols :
  (forall s, url_builder [("id", s); ("symbol", s)] = Return (url_of s)) ->
  build_tasks py_str_item url_builder (items_of symbols)
  = Return (map (fun s => (url_of s, s)) symbols).
Proof.
  intros Hu. induction symbols as [|s symbols IH]; simpl; [done|].
  by rewrite Hu, IH.
Qed.

Lemma returned_identifier fetch tasks identifier data :
  TaskReturned identifier data ∈ gather fetch tasks -> identifier ∈ map snd tasks.
Proof.
  unfold gather. revert fetch. induction tasks as [|[url id] tasks IH]; intros fetch.
  - intros H. by apply not_elem_of_nil in H.
  - rewrite imap_cons. unfold run_task at 1. cbn [fst snd map]. intros H.
    apply elem_of_cons in H as [H|H].
    + destruct (fetch 0%nat url); [|done]. injection H as -> _. left.
    + right. exact (IH (fun i => fetch (S i)) H).
Qed.

Lemma process_symbols (url_of : string -> string) url_builder symbols fetch :
  (forall s, url_builder [("id", s); ("symbol", s)] = Return (url_of s)) ->
  exists r,
    process py_str_item py_repr (items_of symbols) url_builder fetch = Return r
    /\ build_tasks py_str_item url_builder (items_of symbols)
       = Return (map (fun s => (url_of s, s)) symbols)
    /\ total r = length symbols
    /\ (forall id data, results r !! id = Some data -> id ∈ symbols)
    /\ (count r + error_count r <= total r)%nat
    /\ (NoDup symbols -> (count r + error_count r)%nat = total r).
Proof.
  intros Hu. pose proof (build_tasks_symbols url_of url_builder symbols Hu) as Hb.
  unfold process. rewrite Hb. eexists. split; [reflexivity|]. split; [done|].
  set (tasks := map (fun s => (url_of s, s)) symbols).
  set (rs := gather fetch tasks).
  assert (Hids : map snd tasks = symbols).
  { unfold tasks. rewrite map_map. simpl. apply map_id. }
  destruct (classify_fold py_repr rs ∅ []) as (H1 & H2 & H3 & H4 & _).
  set (acc := fold_left (classify py_repr) rs (∅, [])) in *.
  assert (Herr : error_count (summarize (items_of symbols) acc) = length acc.2).
  { unfold error_count, summarize. cbn [errors]. by destruct acc.2. }
  assert (Hlen : length rs = length symbols).
  { unfold rs, gather, tasks. by rewrite length_imap, length_map. }
  pose proof (ok_failed_length rs) as Hsum. rewrite <- ok_ids_length in Hsum.
  rewrite map_size_empty in H2, H3. cbn [length] in H1.
  rewrite Herr. unfold summarize. cbn [total count results].
  unfold items_of. rewrite length_map.
  split; [done|]. split.
  { intros id data Hl. destruct (H4 id data Hl) as [Hm|[Hin _]].
    - by rewrite lookup_empty in Hm.
    - rewrite <- Hids. by apply (returned_identifier fetch tasks id data). }
  split; [lia|].
  intros Hnd. rewrite H3; [lia | |].
  - apply sublist_NoDup with (map snd tasks); [by rewrite Hids | apply ok_ids_gather].
  - intros id _. apply lookup_empty.
Qed.

(** X27: the three helpers built on [process] never fail on their own: the
    items they build carry the symbol both as identifier and as the key the
    URL builder reads, so the builder cannot raise.  Each one asks for one
    URL per symbol, of the documented shape, reports [total] as the number
    of symbols, has only requested symbols as keys of its results, and
    accounts for every symbol once when the symbols are distinct. *)
Theorem batch_helpers_account_for_symbols symbols date filter_fields fetch :
  (exists r,
     batch_quotes EODHD_API_BASE py_str_item py_repr symbols fetch = Return r
     /\ build_tasks py_str_item (quotes_url EODHD_API_BASE) (items_of symbols)
        = Return (map (fun s => (EODHD_API_BASE +:+ "/real-time/" +:+ s +:+ "?fmt=json", s))
                      symbols)
     /\ total r = length symbols
     /\ (forall id data, results r !! id = Some data -> id ∈ symbols)
     /\ (count r + error_count r <= total r)%nat
     /\ (NoDup symbols -> (count r + error_count r)%nat = total r))
  /\ (exists r,
        batch_eod EODHD_API_BASE py_str_item py_repr symbols date fetch = Return r
        /\ total r = length symbols
        /\ (forall id data, results r !! id = Some data -> id ∈ symbols)
        /\ (NoDup symbols -> (count r + error_count r)%nat = total r))
  /\ (exists r,
        batch_fundamentals EODHD_API_BASE py_str_item py_repr symbols filter_fields fetch
        = Return r
        /\ total r = length symbols
        /\ (forall id data, results r !! id = Some data -> id ∈ symbols)
        /\ (NoDup symbols -> (count r + error_count r)%nat = total r)).
Proof.
  split; [|split].
  - destruct (process_symbols
                (fun s => EODHD_API_BASE +:+ "/real-time/" +:+ s +:+ "?fmt=json")
                (quotes_url EODHD_API_BASE) symbols fetch ltac:(done))
      as (r & Hr & Hb & Ht & Hk & Hle & Heq).
    exists r. by repeat split.
  - destruct (process_symbols
                (fun s => match Auth.if_truthy date with
                          | Some d => (EODHD_API_BASE +:+ "/eod/" +:+ s
                                       +:+ "?fmt=json&order=d&limit=1")
                                      +:+ "&from=" +:+ d +:+ "&to=" +:+ d
                          | None => EODHD_API_BASE +:+ "/eod/" +:+ s
                                    +:+ "?fmt=json&order=d&limit=1"
                          end)
                (eod_url EODHD_API_BASE date) symbols fetch ltac:(done))
      as (r & Hr & Hb & Ht & Hk & Hle & Heq).
    exists r. by repeat split.
  - destruct (process_symbols
                (fun s => match Auth.if_truthy filter_fields with
                          | Some f => (EODHD_API_BASE +:+ "/fundamentals/" +:+ s)
                                      +:+ "?filter=" +:+ f
                          | None => EODHD_API_BASE +:+ "/fundamentals/" +:+ s
                          end)
                (fundamentals_url EODHD_API_BASE filter_fields) symbols fetch ltac:(done))
      as (r & Hr & Hb & Ht & Hk & Hle & Heq).
    exists r. by repeat split.
Qed.

End BatchMore.

(** * Properties of the health check *)
Section HealthFacts.

Import ApiClient Health.

Variable EODHD_API_KEY : option string.
Variable EODHD_API_BASE : string.

(** X28: the API check is cached and cannot fail.  Within
    [_api_check_interval] seconds of the last check it asks nothing and
    repeats the stored verdict; otherwise it issues at most four requests,
    stores the verdict with the time of the check, and the verdict is
    positive only if the engine returned a value that is neither [None]
    nor a dict with a truthy ["error"] entry; a further check within the
    interval repeats it without a request. *)
Theorem api_check_is_cached (h : HealthChecker) (now : Q) (env : nat -> http_outcome) :
  let out := _check_api EODHD_API_KEY EODHD_API_BASE h now env in
  ((now - _last_api_check h < _api_check_interval h)%Q ->
     out = (h, _api_healthy h, []))
  /\ ((_api_check_interval h <= now - _last_api_check h)%Q ->
      _last_api_check out.1.1 = now
      /\ _api_healthy out.1.1 = out.1.2
      /\ (count_attempts out.2 <= 4)%nat
      /\ (out.1.2 = true ->
          exists v,
            (make_request EODHD_API_KEY env
               (EODHD_API_BASE +:+ "/exchanges-list/?fmt=json") 30 MAX_RETRIES).2 = Return v
            /\ v <> JNull /\ forall msg, msg <> "" -> v <> error_dict msg)
      /\ forall now' env',
           (now' - now < _api_check_interval h)%Q ->
           _check_api EODHD_API_KEY EODHD_API_BASE out.1.1 now' env'
           = (out.1.1, out.1.2, [])).
Proof.
  intros out. unfold out, _check_api. split.
  - intros Hlt. by replace (Qltb (now - _last_api_check h) (_api_check_interval h))
      with true by (symmetry; by apply Qltb_lt).
  - intros Hge. replace (Qltb (now - _last_api_check h) (_api_check_interval h))
      with false by (symmetry; by apply Qltb_ge).
    cbn [fst snd _last_api_check _api_healthy _api_check_interval].
    split; [done|]. split; [done|]. split; [apply attempts_count|]. split.
    + destruct (make_request _ _ _ _ _).2 as [v|e]; [|done].
      intros Hv. exists v. split; [done|]. split; [by intros ->|].
      intros msg Hmsg ->. unfold healthy_result, error_dict in Hv. simpl in Hv.
      destruct (String.eqb_spec msg ""); [done|]. done.
    + intros now' env' Hlt.
      by replace (Qltb (now' - now) (_api_check_interval h))
        with true by (symmetry; by apply Qltb_lt).
Qed.

End HealthFacts.

(** * The properties above on concrete inputs *)

Lemma abc_cache_ok : Cache.cache_ok Cache.abc_cache.
Proof.
  split; [apply (bool_decide_unpack _); vm_compute; exact I | vm_compute; discriminate].
Qed.

Lemma cleanup_removes_exactly_expired_witness :
  Cache.cache_ok Cache.abc_cache
  /\ Cache._cache (Cache.cleanup Cache.abc_cache (123 # 2)).1
     = List.filter (fun e => negb (Cache.is_expired (123 # 2) e)) (Cache._cache Cache.abc_cache).
Proof.
  split; [exact abc_cache_ok|].
  exact (proj1 (cleanup_removes_exactly_expired Cache.abc_cache (123 # 2) abc_cache_ok)).
Defined.

Lemma delete_removes_only_key_witness :
  Cache.cache_ok Cache.abc_cache
  /\ Cache.find "b" (Cache._cache (Cache.delete Cache.abc_cache "b").1) = None.
Proof.
  split; [exact abc_cache_ok|].
  exact (proj1 (proj2 (delete_removes_only_key Cache.abc_cache "b" abc_cache_ok))).
Defined.


Lemma set_keeps_other_entries_witness :
  Cache.cache_ok Cache.abc_cache
  /\ (is_Some (Cache.find "b" (Cache._cache Cache.abc_cache))
      \/ Z.of_nat (length (Cache._cache Cache.abc_cache)) < Cache._maxsize Cache.abc_cache)
  /\ Cache.find "c" (Cache._cache (Cache.set Cache.abc_cache "b" "9" None 5).1)
     = Cache.find "c" (Cache._cache Cache.abc_cache).
Proof.
  assert (H : is_Some (Cache.find "b" (Cache._cache Cache.abc_cache))
              \/ Z.of_nat (length (Cache._cache Cache.abc_cache))
                 < Cache._maxsize Cache.abc_cache)
    by (left; vm_compute; by eexists).
  split; [exact abc_cache_ok|]. split; [exact H|].
  apply (set_keeps_other_entries Cache.abc_cache "b" "9" None 5 abc_cache_ok H).
  discriminate.
Defined.


Lemma cached_call_stores_no_failure_witness :
  Cache.cache_ok Cache.abc_cache
  /\ (Cache.get Cache.abc_cache "quote" 5).2 = None
  /\ (CacheUse.cached_call
        (CacheUse.cached_call Cache.abc_cache "quote" None (Return None) 5 6).1.1
        "quote" None (Return (Some "v")) 7 8).2 = true.
Proof.
  assert (H2 : (Cache.get Cache.abc_cache "quote" 5).2 = None) by reflexivity.
  split; [exact abc_cache_ok|]. split; [exact H2|].
  exact (proj2 (proj2 (proj2
           (cached_call_stores_no_failure Cache.abc_cache "quote" None (Return None) 5 6 7
              (Return (Some "v")) 8 abc_cache_ok H2 (or_introl eq_refl))))).
Defined.


Lemma fallback_delete_then_get_witness :
  RedisCache.use_remote RedisConn.stocked_cache = false
  /\ RedisCache._fallback_cache RedisConn.stocked_cache !! "eodhd:quote:AAPL"
     = Some ("185", 60%Q)
  /\ (RedisCache.delete (fun k => k) RedisConn.stocked_cache "quote:AAPL"
        (RedisCache.Fails "unused")).2 = true
  /\ (RedisCache.get (fun k => k) Some
        (RedisCache.delete (fun k => k) RedisConn.stocked_cache "quote:AAPL"
           (RedisCache.Fails "unused")).1
        "quote:AAPL" 10 (RedisCache.Fails "unused")).2 = None
  /\ RedisCache._fallback_cache
       (RedisCache.delete (fun k => k) RedisConn.stocked_cache "quote:AAPL"
          (RedisCache.Fails "unused")).1 !! "eodhd:news:AAPL"
     = Some ("headline", 60%Q).
Proof.
  assert (H1 : RedisCache.use_remote RedisConn.stocked_cache = false) by reflexivity.
  destruct (fallback_delete_then_get (fun k => k) Some RedisConn.stocked_cache
              "quote:AAPL" 10 (RedisCache.Fails "unused") (RedisCache.Fails "unused") H1)
    as (Hd & Hg & Hk).
  split; [exact H1|]. split; [vm_compute; reflexivity|]. split; [exact Hd|].
  split; [by rewrite Hg|].
  rewrite (Hk "eodhd:news:AAPL") by discriminate. vm_compute. reflexivity.
Defined.

Lemma fallback_clear_prefix_exact_witness :
  RedisCache.use_remote RedisConn.stocked_cache = false
  /\ size (RedisCache._fallback_cache RedisConn.stocked_cache) = 2%nat
  /\ (RedisCache.clear_prefix RedisConn.stocked_cache "quote:" (RedisCache.Fails "unused")).2
     = 2 - 1
  /\ RedisCache._fallback_cache
       (RedisCache.clear_prefix RedisConn.stocked_cache "quote:"
          (RedisCache.Fails "unused")).1 !! "eodhd:quote:AAPL" = None
  /\ RedisCache._fallback_cache
       (RedisCache.clear_prefix RedisConn.stocked_cache "quote:"
          (RedisCache.Fails "unused")).1 !! "eodhd:news:AAPL"
     = Some ("headline", 60%Q).
Proof.
  assert (H1 : RedisCache.use_remote RedisConn.stocked_cache = false) by reflexivity.
  destruct (fallback_clear_prefix_exact RedisConn.stocked_cache "quote:"
              (RedisCache.Fails "unused") H1) as (Hk & Hn).
  split; [exact H1|]. split; [vm_compute; reflexivity|].
  split; [rewrite Hn; vm_compute; reflexivity|].
  split; [exact (Hk "eodhd:quote:AAPL")|].
  rewrite (Hk "eodhd:news:AAPL"). vm_compute. reflexivity.
Defined.

Lemma fallback_exists_agrees_with_get_witness :
  RedisCache.use_remote RedisConn.stocked_cache = false
  /\ RedisCache.exists_ (fun k => k) RedisConn.stocked_cache "quote:AAPL" 10
       (RedisCache.Fails "unused") = true
  /\ (exists v, (RedisCache.get (fun k => k) Some RedisConn.stocked_cache "quote:AAPL" 10
                   (RedisCache.Fails "unused")).2 = Some v)
  /\ ~ (exists v, (RedisCache.get (fun k => k) Some RedisConn.stocked_cache "quote:AAPL" 60
                     (RedisCache.Fails "unused")).2 = Some v).
Proof.
  assert (H1 : RedisCache.use_remote RedisConn.stocked_cache = false) by reflexivity.
  assert (H2 : RedisCache.exists_ (fun k => k) RedisConn.stocked_cache "quote:AAPL" 10
                 (RedisCache.Fails "unused") = true) by (vm_compute; reflexivity).
  assert (H3 : RedisCache.exists_ (fun k => k) RedisConn.stocked_cache "quote:AAPL" 60
                 (RedisCache.Fails "unused") = false) by (vm_compute; reflexivity).
  split; [exact H1|]. split; [exact H2|]. split.
  - exact (proj1 (fallback_exists_agrees_with_get (fun k => k) Some RedisConn.stocked_cache
                    "quote:AAPL" 10 (RedisCache.Fails "unused") (RedisCache.Fails "unused") H1)
                 H2).
  - intros Hg.
    pose proof (proj2 (fallback_exists_agrees_with_get (fun k => k) Some
                         RedisConn.stocked_cache "quote:AAPL" 60
                         (RedisCache.Fails "unused") (RedisCache.Fails "unused") H1) Hg) as Ht.
    rewrite H3 in Ht. discriminate.
Defined.

Lemma introspection_fails_closed_witness :
  "http" <> "stdio"
  /\ Auth.if_truthy (Auth.extract_bearer_token (Some "Bearer abc123")) = Some "abc123"
  /\ OAuth.introspection_url (Auth.oauth_validator Auth.demo_middleware) <> ""
  /\ OAuth._cache (Auth.oauth_validator Auth.demo_middleware)
       !! OAuth._cache_key (fun s => s) "abc123" = None
  /\ (Auth.authenticate (fun s => s) Auth.demo_middleware (Some "Bearer abc123") None "http"
        Auth.text_active_world).2
     = [OAuth.CallIntrospect "https://auth.example/introspect" "abc123"]
  /\ (Auth.authenticate (fun s => s) Auth.demo_middleware (Some "Bearer abc123") None "http"
        Auth.text_active_world).1.2
     = Return (Auth.mkAuthResult true (JStr "user-1") (Some "oauth") ["read:eod"; "read:news"]
                                 None None).
Proof.
  assert (H1 : "http" <> "stdio") by discriminate.
  assert (H2 : Auth.if_truthy (Auth.extract_bearer_token (Some "Bearer abc123"))
               = Some "abc123") by reflexivity.
  assert (H3 : OAuth.introspection_url (Auth.oauth_validator Auth.demo_middleware) <> "")
    by discriminate.
  assert (H4 : OAuth._cache (Auth.oauth_validator Auth.demo_middleware)
                 !! OAuth._cache_key (fun s => s) "abc123" = None) by reflexivity.
  destruct (introspection_fails_closed (fun s => s) Auth.demo_middleware
              (Some "Bearer abc123") None "http" Auth.text_active_world "abc123"
              H1 H2 H3 H4) as (Hc & _ & _ & _ & Hacc).
  split; [exact H1|]. split; [exact H2|]. split; [exact H3|]. split; [exact H4|].
  split; [exact Hc|].
  exact (Hacc _ (JStr "false") ["read:eod"; "read:news"] eq_refl eq_refl eq_refl eq_refl
              eq_refl).
Defined.

Lemma stale_result_is_revalidated_witness :
  OAuth.introspection_url Scopes.stale_validator <> ""
  /\ OAuth._cache Scopes.stale_validator !! OAuth._cache_key (fun s => s) "tok"
     = Some (OAuth.inactive, 0%Q)
  /\ (inject_Z (OAuth.cache_ttl Scopes.stale_validator) <= 300 - 0)%Q
  /\ (OAuth.validate_token (fun s => s) Scopes.stale_validator "tok" 300
        (OAuth.IntrospectionRaises "down") 301).2
     = [OAuth.CallIntrospect (OAuth.introspection_url Scopes.stale_validator) "tok"].
Proof.
  assert (H1 : OAuth.introspection_url Scopes.stale_validator <> "") by discriminate.
  assert (H2 : OAuth._cache Scopes.stale_validator !! OAuth._cache_key (fun s => s) "tok"
               = Some (OAuth.inactive, 0%Q)) by reflexivity.
  assert (H3 : (inject_Z (OAuth.cache_ttl Scopes.stale_validator) <= 300 - 0)%Q)
    by (vm_compute; discriminate).
  split; [exact H1|]. split; [exact H2|]. split; [exact H3|].
  exact (proj1 (proj2 (stale_result_is_revalidated (fun s => s) Scopes.stale_validator "tok"
                         OAuth.inactive 0 300 (OAuth.IntrospectionRaises "down") 301
                         H1 H2 H3))).
Defined.

Lemma unconfigured_validator_accepts_any_token_witness :
  "http" <> "stdio"
  /\ Auth.if_truthy (Auth.extract_bearer_token (Some "Bearer anything")) = Some "anything"
  /\ OAuth.introspection_url (Auth.oauth_validator Scopes.open_middleware) = ""
  /\ OAuth._cache (Auth.oauth_validator Scopes.open_middleware)
       !! OAuth._cache_key (fun s => s) "anything" = None
  /\ Scopes.check_scope
       (Auth.mkAuthResult true JNull (Some "oauth") ["full-access"] None None)
       "get_us_options_eod" = true.
Proof.
  assert (H1 : "http" <> "stdio") by discriminate.
  assert (H2 : Auth.if_truthy (Auth.extract_bearer_token (Some "Bearer anything"))
               = Some "anything") by reflexivity.
  assert (H3 : OAuth.introspection_url (Auth.oauth_validator Scopes.open_middleware) = "")
    by reflexivity.
  assert (H4 : OAuth._cache (Auth.oauth_validator Scopes.open_middleware)
                 !! OAuth._cache_key (fun s => s) "anything" = None) by reflexivity.
  split; [exact H1|]. split; [exact H2|]. split; [exact H3|]. split; [exact H4|].
  destruct (unconfigured_validator_accepts_any_token (fun s => s) Scopes.open_middleware
              (Some "Bearer anything") None "http" Auth.active_world "anything"
              "get_us_options_eod" H1 H2 H3 H4) as (Heq & Hchk).
  apply Hchk. rewrite Heq. reflexivity.
Defined.

Lemma legacy_key_decided_by_endpoint_witness :
  "http" <> "stdio"
  /\ Auth.if_truthy (Auth.extract_bearer_token None) = None
  /\ Auth.allow_legacy_api_key Auth.demo_middleware = true
  /\ Auth.if_truthy (Some "legacy-key") = Some "legacy-key"
  /\ Auth.authenticate (fun s => s) Auth.demo_middleware None (Some "legacy-key") "http"
       (Scopes.no_bearer_world 401)
     = (Auth.demo_middleware,
        Return (Auth.validate_legacy_api_key (Auth.legacy (Scopes.no_bearer_world 401))),
        [OAuth.CallLegacy "legacy-key"]).
Proof.
  assert (H1 : "http" <> "stdio") by discriminate.
  assert (H2 : Auth.if_truthy (Auth.extract_bearer_token None) = None) by reflexivity.
  assert (H3 : Auth.allow_legacy_api_key Auth.demo_middleware = true) by reflexivity.
  assert (H4 : Auth.if_truthy (Some "legacy-key") = Some "legacy-key") by reflexivity.
  split; [exact H1|]. split; [exact H2|]. split; [exact H3|]. split; [exact H4|].
  exact (proj1 (legacy_key_decided_by_endpoint (fun s => s) Auth.demo_middleware None
                  (Some "legacy-key") "http" (Scopes.no_bearer_world 401) "legacy-key"
                  H1 H2 H3 H4)).
Defined.

Lemma errors_follow_task_order_witness :
  Batch.process Batch.demo_str Batch.demo_repr Batch.three_items Batch.demo_builder
    Batch.second_raises = Return Batch.three_result
  /\ exists tasks,
       Batch.build_tasks Batch.demo_str Batch.demo_builder Batch.three_items = Return tasks
       /\ default [] (Batch.errors Batch.three_result)
          = map (BatchHelpers.error_entry Batch.demo_repr)
                (List.filter Batch.task_failed (Batch.gather Batch.second_raises tasks)).
Proof.
  assert (H : Batch.process Batch.demo_str Batch.demo_repr Batch.three_items
                Batch.demo_builder Batch.second_raises = Return Batch.three_result)
    by reflexivity.
  split; [exact H|].
  destruct (errors_follow_task_order Batch.demo_str Batch.demo_repr _ _ _ _ H)
    as (tasks & Hb & He & _).
  exists tasks. split; [exact Hb | exact He].
Defined.
